(** * local_llm/chat.py: the multimodal chat history and its embedding assembly

    A shallow embedding of [ChatHistory] (packages/llm/local_llm/chat.py).
    Python dicts whose iteration order matters (the chat entries) are
    insertion-ordered association lists; dicts used only as maps (the chat
    template, the table of embedding functions) are [gmap]s.  A numpy array
    of shape [1, n, h] is the list of its [n] rows along axis 1, so that
    [np.concatenate(_, axis=1)] is list concatenation and [shape[1]] is
    [length].  Raised exceptions are values of [exn]; methods that mutate
    the history return the mutated history next to their outcome, so that
    what a failed call leaves behind can be stated. *)

From Stdlib Require Import String Ascii List ZArith Lia Bool.
From stdpp Require Import base option list strings gmap.

Local Open Scope string_scope.
Local Open Scope list_scope.
#[local] Set Warnings "-register-all".

(** ** Python string operations used by the module *)

Module PyStr.

(** The one-character string holding a line feed (Python's '\n'). *)
Definition nl : string := String (ascii_of_nat 10) EmptyString.

(** The placeholder of a role template. *)
Definition MESSAGE : string := "${MESSAGE}".

(** [s.find(sub)]: the index of the first occurrence, or -1. *)
Definition find (sub s : string) : Z :=
  match String.index 0 sub s with
  | Some i => Z.of_nat i
  | None => (-1)%Z
  end.

(** [s[i:]], with Python's treatment of a negative start. *)
Definition slice_from (i : Z) (s : string) : string :=
  let n := Z.of_nat (String.length s) in
  let start := if (i <? 0)%Z then Z.max 0 (n + i) else Z.min i n in
  String.substring (Z.to_nat start) (String.length s - Z.to_nat start) s.

(** [s.split(sep)[0]]: what precedes the first [sep], all of [s] when
    [sep] does not occur. *)
Definition split_head (sep s : string) : string :=
  match String.index 0 sep s with
  | Some i => String.substring 0 i s
  | None => s
  end.

(** [s.endswith(suffix)] *)
Definition endswith1 (s suffix : string) : bool :=
  let n := String.length s in
  let m := String.length suffix in
  (m <=? n)%nat && String.eqb (String.substring (n - m) m s) suffix.

(** [s.endswith(suffixes)] for a tuple of suffixes. *)
Definition endswith (s : string) (suffixes : list string) : bool :=
  existsb (endswith1 s) suffixes.

(** [s.replace(old, new)] for a non-empty [old]: every occurrence, left to
    right, without overlap.  [skip] counts the characters of a matched
    occurrence still to be dropped. *)
Fixpoint replace_from (old new : string) (skip : nat) (s : string) : string :=
  match s with
  | EmptyString => EmptyString
  | String c s' =>
      match skip with
      | S k => replace_from old new k s'
      | O =>
          if String.prefix old s
          then new +:+ replace_from old new (String.length old - 1) s'
          else String c (replace_from old new 0 s')
      end
  end.

Definition replace (old new s : string) : string := replace_from old new 0 s.

(** [sub in s] *)
Definition contains (sub s : string) : bool :=
  match String.index 0 sub s with
  | Some _ => true
  | None => false
  end.

(** [s.lower()] on ASCII letters. *)
Definition lower_ascii (c : ascii) : ascii :=
  let n := nat_of_ascii c in
  if (65 <=? n)%nat && (n <=? 90)%nat then ascii_of_nat (n + 32) else c.

Fixpoint lower (s : string) : string :=
  match s with
  | EmptyString => EmptyString
  | String c s' => String (lower_ascii c) (lower s')
  end.

End PyStr.

(** ** Exceptions and outcomes *)

(** The exceptions the module raises or lets through, each with its message
    (or, for [KeyError], the missing key). *)
Inductive exn :=
| RuntimeError (msg : string)
| ValueError (msg : string)
| AttributeError (msg : string)
| NameError (msg : string)
| TypeError (msg : string)
| KeyError (key : string)
| ModelError (msg : string).   (* raised inside the model collaborator *)

Inductive result (A : Type) :=
| Ok (a : A)
| Raise (e : exn).

Arguments Ok {A} a.
Arguments Raise {A} e.

Global Instance result_ret : MRet result := fun A a => Ok a.

Global Instance result_bind : MBind result := fun A B f m =>
  match m with
  | Ok a => f a
  | Raise e => Raise e
  end.

Global Instance result_fmap : FMap result := fun A B f m =>
  match m with
  | Ok a => Ok (f a)
  | Raise e => Raise e
  end.

Definition is_Raise {A} (r : result A) : bool :=
  match r with
  | Raise _ => true
  | Ok _ => false
  end.

(** The names bound at module level when a method runs: the imports of the
    file, its own top-level assignments and the class. *)
Definition module_globals : list string :=
  [ "os"; "inspect"; "logging"; "np";
    "AttrDict"; "replace_text"; "print_table"; "ImageExtensions";
    "ChatTemplates"; "key"; "ChatHistory" ].

(** Evaluating a global name that is neither bound in the module nor a
    builtin. *)
Definition global_name (name : string) : result unit :=
  if bool_decide (name ∈ module_globals)
  then Ok tt
  else Raise (NameError ("name '" +:+ name +:+ "' is not defined")).

(** ** The chat templates of the module *)

Module Templates.
Import PyStr.

Definition vicuna_prompt : string :=
  "A chat between a curious human and an artificial intelligence assistant. The assistant gives helpful, detailed, and polite answers to the human's questions.".

Definition llama_2 : gmap string string :=
  list_to_map
    [ ("system_prompt", "Answer the questions.");
      ("system", "<s>[INST] <<SYS>>" +:+ nl +:+ "${MESSAGE}" +:+ nl +:+ "<</SYS>>" +:+ nl +:+ nl);
      ("first", "${MESSAGE} [/INST]");
      ("user", "<s>[INST] ${MESSAGE} [/INST]");
      ("bot", " ${MESSAGE}") ].

Definition vicuna_v0 : gmap string string :=
  list_to_map
    [ ("system_prompt", vicuna_prompt);
      ("system", "${MESSAGE}" +:+ nl +:+ nl);
      ("user", "### Human: ${MESSAGE}" +:+ nl);
      ("bot", "### Assistant: ${MESSAGE}" +:+ nl) ].

Definition vicuna_v1 : gmap string string :=
  list_to_map
    [ ("system_prompt", vicuna_prompt);
      ("system", "${MESSAGE}" +:+ nl +:+ nl);
      ("user", "USER: ${MESSAGE}" +:+ nl);
      ("bot", "ASSISTANT: ${MESSAGE}</s>" +:+ nl) ].

Definition llava_llama_2 : gmap string string :=
  <["system_prompt" :=
      "You are a helpful language and vision assistant. You are able to understand the visual content that the user provides, and assist the user with a variety of tasks using natural language."]>
    llama_2.

Definition ChatTemplates : gmap string (gmap string string) :=
  list_to_map
    [ ("llama-2", llama_2);
      ("vicuna-v0", vicuna_v0);
      ("vicuna-v1", vicuna_v1);
      ("llava-v0", vicuna_v0);
      ("llava-v1", vicuna_v1);
      ("llava-llama-2", llava_llama_2) ].

End Templates.

(** ** Values, entries and the history *)

Section ChatHistory.

(** One position of an embedding along the sequence axis; its contents are
    never inspected. *)
Variable row : Type.

(** An array of shape [1, n, h], as its [n] rows. *)
Definition ndarray : Type := list row.

(** What a chat entry can hold under a key, and what callers pass as
    input. *)
Inductive value :=
| VNone
| VStr (s : string)
| VList (items : list value)
| VImage (handle : nat)                    (* a PIL.Image.Image *)
| VDict (items : list (string * value))
| VArray (a : ndarray).

(** An insertion-ordered dict with string keys (AttrDict). *)
Definition dict : Type := list (string * value).

Fixpoint dict_get (k : string) (d : dict) : option value :=
  match d with
  | [] => None
  | (k', v) :: d' => if String.eqb k k' then Some v else dict_get k d'
  end.

(** [k in d] *)
Definition dict_has (k : string) (d : dict) : bool :=
  match dict_get k d with
  | Some _ => true
  | None => false
  end.

(** [d[k] = v]: an existing key keeps its place, a new one goes last. *)
Fixpoint dict_set (k : string) (v : value) (d : dict) : dict :=
  match d with
  | [] => [(k, v)]
  | (k', v') :: d' =>
      if String.eqb k k' then (k, v) :: d' else (k', v') :: dict_set k v d'
  end.

Definition dict_keys (d : dict) : list string := map fst d.

(** The AttrDict built from keyword arguments, in their order. *)
Definition AttrDict (items : list (string * value)) : dict :=
  fold_left (fun d kv => dict_set (fst kv) (snd kv) d) items [].

(** [d[k]] *)
Definition getitem (d : dict) (k : string) : result value :=
  match dict_get k d with
  | Some v => Ok v
  | None => Raise (KeyError k)
  end.

(** [type(v)] as the f-string prints it. *)
Definition py_type (v : value) : string :=
  match v with
  | VNone => "<class 'NoneType'>"
  | VStr _ => "<class 'str'>"
  | VList _ => "<class 'list'>"
  | VImage _ => "<class 'PIL.Image.Image'>"
  | VDict _ => "<class 'dict'>"
  | VArray _ => "<class 'numpy.ndarray'>"
  end.

(** [str(v)] for the values a role can be. *)
Definition py_str (v : value) : string :=
  match v with
  | VStr s => s
  | VNone => "None"
  | v => py_type v
  end.

(** [np.concatenate(arrays, axis=1)].  An empty list is refused by numpy;
    so is an operand that is not an array of three axes (numpy's coercion
    of other operands is not modelled: they are refused as well). *)
Fixpoint all_arrays (vs : list value) : option (list ndarray) :=
  match vs with
  | [] => Some []
  | VArray a :: vs' => cons a <$> all_arrays vs'
  | _ :: _ => None
  end.

Definition np_concatenate (arrays : list value) : result ndarray :=
  match arrays with
  | [] => Raise (ValueError "need at least one array to concatenate")
  | _ =>
      match all_arrays arrays with
      | Some rows => Ok (concat rows)
      | None => Raise (ValueError "zero-dimensional arrays cannot be concatenated")
      end
  end.

(** [a.shape[1]] *)
Definition shape1 (v : value) : result nat :=
  match v with
  | VArray a => Ok (length a)
  | v => Raise (AttributeError ("'" +:+ py_type v +:+ "' object has no attribute 'shape'"))
  end.

(** *** Collaborators *)

(** utils.ImageExtensions: the known image-file extensions. *)
Variable ImageExtensions : list string.

(** utils.replace_text(text, dict): the text with every key of the dict
    replaced by its value. *)
Variable replace_text : string -> dict -> result value.

(** The model (LocalLM): its name and its two embedding calls. *)
Record LocalLM := {
  config_name : string;
  lm_embed_text : value -> bool -> result ndarray;   (* embed_text(text, use_cache=...) *)
  lm_embed_image : value -> result ndarray;          (* embed_image(image, return_tensors='np') *)
}.

(** *** The history object *)

(** What [register_embedding] can be given: one of the three bound methods
    of the history, or a function of the caller with [nparams] declared
    parameters. *)
Inductive callable :=
| bound_embed_text
| bound_embed_dict
| bound_embed_image
| external (nparams : nat) (f : value -> option string -> result ndarray).

Record EmbeddingFunction := {
  func : callable;
  uses_template : bool;
}.

(** The attributes of a [ChatHistory].  [template_name] is read by
    [embed_chat] but assigned by no method of the class: it is [Some] only
    when a caller has set it on the object. *)
Record ChatHistory := {
  model : LocalLM;
  template : gmap string string;
  embedding_functions : gmap string EmbeddingFunction;
  entries : list dict;
  kv_cache : option nat;
  template_name : option string;
}.

Implicit Types (self : ChatHistory) (entry : dict) (key : string).

Definition with_entries self (es : list dict) : ChatHistory :=
  {| model := model self; template := template self;
     embedding_functions := embedding_functions self;
     entries := es; kv_cache := kv_cache self;
     template_name := template_name self |}.

(** ** Content-type resolution and the embedding functions *)

(** [embedding_type(input)].  The second test names [PIL], which the module
    does not import. *)
Definition embedding_type (input : value) : result string :=
  match input with
  | VStr s =>
      if PyStr.endswith s ImageExtensions then Ok "image" else Ok "text"
  | _ =>
      _ ← global_name "PIL";
      match input with
      | VImage _ => Ok "image"
      | VList (VStr _ :: _) => Ok "text"
      | _ => Raise (ValueError ("couldn't find type of embedding for "
                                +:+ py_type input
                                +:+ ", please specify the 'type' argument"))
      end
  end.

(** [register_embedding(type, func)]: the number of declared parameters
    decides whether the function is handed the template. *)
Definition nparams_of (f : callable) : nat :=
  match f with
  | bound_embed_text => 3      (* text, template, use_cache *)
  | bound_embed_dict => 2      (* dict, template *)
  | bound_embed_image => 2     (* image, template *)
  | external n _ => n
  end.

Definition register_embedding self (type : string) (f : callable) : ChatHistory :=
  {| model := model self; template := template self;
     embedding_functions :=
       <[type := {| func := f; uses_template := (1 <? nparams_of f)%nat |}]>
         (embedding_functions self);
     entries := entries self; kv_cache := kv_cache self;
     template_name := template_name self |}.

(** [embed_text(text, template=None, use_cache=False)] *)
Definition embed_text self (text : value) (template : option string)
    (use_cache : bool) : result ndarray :=
  text ← match template with
         | Some (String _ _ as t) => replace_text t [(PyStr.MESSAGE, text)]
         | _ => Ok text
         end;
  lm_embed_text (model self) text use_cache.

(** [embed_image(image, template=None)] *)
Definition embed_image self (image : value) (template : option string)
    : result ndarray :=
  embeddings ← match template with
               | Some (String _ _ as t) =>
                   let template := PyStr.split_head PyStr.MESSAGE t in
                   prefix ← embed_text self (VStr template) None true;
                   Ok [VArray prefix]
               | _ => Ok []
               end;
  image ← lm_embed_image (model self) image;
  let embeddings := embeddings ++ [VArray image] in
  newline ← embed_text self (VStr PyStr.nl) None true;
  let embeddings := embeddings ++ [VArray newline] in
  np_concatenate embeddings.

(** The end of [embed_dict]: none, one or several embeddings collected. *)
Definition embed_dict_result (embeddings : list ndarray) : result ndarray :=
  match embeddings with
  | [] => Raise (ValueError "dict did not contain any entries with valid embedding types")
  | [e] => Ok e
  | _ => np_concatenate (VArray <$> embeddings)
  end.

(** [embed(input, type=None, template=None)], with the loop of
    [embed_dict] (which calls [embed] on each item) as its inner fixpoint. *)
Fixpoint embed self (input : value) (type : option string)
    (template : option string) {struct input} : result ndarray :=
  type ← match type with
         | Some (String _ _ as t) => Ok t
         | _ => embedding_type input
         end;
  match embedding_functions self !! type with
  | None => Raise (ValueError ("type '" +:+ type +:+ "' did not have an embedding registered"))
  | Some ef =>
      let template := if uses_template ef then template else None in
      match func ef with
      | bound_embed_text => embed_text self input template false
      | bound_embed_image => embed_image self input template
      | external _ f => f input template
      | bound_embed_dict =>
          match input with
          | VDict items =>
              embeddings ←
                (fix each (items : list (string * value)) : result (list ndarray) :=
                   match items with
                   | [] => Ok []
                   | (_, VNone) :: items' => each items'
                   | (key, v) :: items' =>
                       match embedding_functions self !! key with
                       | Some _ =>
                           e ← embed self v (Some key) template;
                           es ← each items';
                           Ok (e :: es)
                       | None => each items'
                       end
                   end) items;
              embed_dict_result embeddings
          | v => Raise (AttributeError ("'" +:+ py_type v +:+ "' object has no attribute 'items'"))
          end
      end
  end.

(** [embed_dict(dict, template=None)] *)
Definition embed_dict self (d : value) (template : option string) : result ndarray :=
  match d with
  | VDict items =>
      embeddings ←
        (fix each (items : list (string * value)) : result (list ndarray) :=
           match items with
           | [] => Ok []
           | (_, VNone) :: items' => each items'
           | (key, v) :: items' =>
               match embedding_functions self !! key with
               | Some _ =>
                   e ← embed self v (Some key) template;
                   es ← each items';
                   Ok (e :: es)
               | None => each items'
               end
           end) items;
      embed_dict_result embeddings
  | v => Raise (AttributeError ("'" +:+ py_type v +:+ "' object has no attribute 'items'"))
  end.

(** ** Assembling the embedding of the chat *)

(** The local variables of [embed_chat]. *)
Record pass := {
  embeddings : list value;
  position : nat;
  num_user_prompts : nat;
  open_user_prompt : bool;
  use_cache : bool;
}.

(** [role == name] for a role read from an entry. *)
Definition role_is (role : value) (name : string) : bool :=
  match role with
  | VStr s => String.eqb s name
  | _ => false
  end.

(** [self.template.get(role)], as the source's [role not in self.template]
    followed by [self.template[role]]. *)
Definition template_of_role self (role : value) : result (option string) :=
  match role with
  | VStr r => Ok (template self !! r)
  | VNone | VImage _ => Ok None
  | v => Raise (TypeError ("unhashable type: " +:+ py_type v))
  end.

(** [self.template_name] *)
Definition get_template_name self : result string :=
  match template_name self with
  | Some name => Ok name
  | None => Raise (AttributeError "'ChatHistory' object has no attribute 'template_name'")
  end.

(** Lines 272-280: the role template of the segment at hand, and the value
    of [open_user_prompt] afterwards. *)
Definition role_template_of self (st : pass) entry : result (string * bool) :=
  let by_role : result (string * bool) :=
    role ← getitem entry "role";
    found ← template_of_role self role;
    match found with
    | None =>
        name ← get_template_name self;
        Raise (RuntimeError ("chat template " +:+ name
                             +:+ " didn't have an entry for role=" +:+ py_str role))
    | Some role_template =>
        if open_user_prompt st
        then Ok (PyStr.slice_from (PyStr.find PyStr.MESSAGE role_template) role_template,
                 false)
        else Ok (role_template, false)
    end in
  match template self !! "first" with
  | Some first =>
      role ← getitem entry "role";
      if role_is role "user" && (num_user_prompts st =? 0)%nat
      then Ok (first, open_user_prompt st)
      else by_role
  | None => by_role
  end.

(** Lines 288-298: the segment while [use_cache] is still true. *)
Definition incremental_segment self key (raw role : value) (role_template : string)
    (st : pass) entry : dict * result pass :=
  let embed_key := key +:+ "_embedding" in
  match dict_get embed_key entry with
  | None =>
      match embed self raw (Some key) (Some role_template) with
      | Raise e => (entry, Raise e)
      | Ok embedding =>
          let entry := dict_set embed_key (VArray embedding) entry in
          if negb (role_is role "bot")
          then (entry,
                Ok {| embeddings := embeddings st ++ [VArray embedding];
                      position := position st;
                      num_user_prompts := num_user_prompts st;
                      open_user_prompt :=
                        if String.eqb key "image" then true else open_user_prompt st;
                      use_cache := false |})
          else (entry,
                Ok {| embeddings := embeddings st;
                      position := position st + length embedding;
                      num_user_prompts := num_user_prompts st;
                      open_user_prompt := open_user_prompt st;
                      use_cache := true |})
      end
  | Some cached =>
      (entry,
       n ← shape1 cached;
       Ok {| embeddings := embeddings st;
             position := position st + n;
             num_user_prompts := num_user_prompts st;
             open_user_prompt := open_user_prompt st;
             use_cache := true |})
  end.

(** Lines 300-304: the segment once [use_cache] is false. *)
Definition full_segment self key (raw : value) (role_template : string)
    (st : pass) entry : dict * result pass :=
  let embed_key := key +:+ "_embedding" in
  match dict_get embed_key entry with
  | None =>
      match embed self raw (Some key) (Some role_template) with
      | Raise e => (entry, Raise e)
      | Ok embedding =>
          (dict_set embed_key (VArray embedding) entry,
           Ok {| embeddings := embeddings st ++ [VArray embedding];
                 position := position st;
                 num_user_prompts := num_user_prompts st;
                 open_user_prompt :=
                   if String.eqb key "image" then true else open_user_prompt st;
                 use_cache := false |})
      end
  | Some cached =>
      (entry,
       Ok {| embeddings := embeddings st ++ [cached];
             position := position st;
             num_user_prompts := num_user_prompts st;
             open_user_prompt := open_user_prompt st;
             use_cache := false |})
  end.

(** Lines 306-307. *)
Definition count_user_prompt (role : value) key (st : pass) : pass :=
  if role_is role "user" && String.eqb key "text"
  then {| embeddings := embeddings st;
          position := position st;
          num_user_prompts := num_user_prompts st + 1;
          open_user_prompt := open_user_prompt st;
          use_cache := use_cache st |}
  else st.

(** The body of the inner loop, for one key of one entry. *)
Definition chat_segment self key (st : pass) entry : dict * result pass :=
  match embedding_functions self !! key with
  | None => (entry, Ok st)
  | Some _ =>
      match dict_get key entry with
      | None => (entry, Raise (KeyError key))
      | Some VNone => (entry, Ok st)
      | Some raw =>
          match role_template_of self st entry, getitem entry "role" with
          | Raise e, _ | Ok _, Raise e => (entry, Raise e)
          | Ok (role_template, open), Ok role =>
              let st := {| embeddings := embeddings st;
                           position := position st;
                           num_user_prompts := num_user_prompts st;
                           open_user_prompt := open;
                           use_cache := use_cache st |} in
              let '(entry, outcome) :=
                if use_cache st
                then incremental_segment self key raw role role_template st entry
                else full_segment self key raw role_template st entry in
              (entry, count_user_prompt role key <$> outcome)
          end
      end
  end.

(** [for key in entry.copy()]: the keys are those the entry had when the
    loop started; the entry itself gains keys on the way. *)
Fixpoint chat_keys self (keys : list string) (st : pass) entry : dict * result pass :=
  match keys with
  | [] => (entry, Ok st)
  | key :: keys' =>
      match chat_segment self key st entry with
      | (entry, Ok st) => chat_keys self keys' st entry
      | (entry, Raise e) => (entry, Raise e)
      end
  end.

Definition chat_entry self (st : pass) entry : dict * result pass :=
  chat_keys self (dict_keys entry) st entry.

(** [for i, entry in enumerate(self.entries)]: the entries as the loop
    leaves them, and the local variables or the exception it ends with. *)
Fixpoint chat_entries self (es : list dict) (st : pass) : list dict * result pass :=
  match es with
  | [] => ([], Ok st)
  | entry :: es' =>
      match chat_entry self st entry with
      | (entry, Ok st) =>
          let '(es', outcome) := chat_entries self es' st in
          (entry :: es', outcome)
      | (entry, Raise e) => (entry :: es', Raise e)
      end
  end.

Definition start_pass (use_cache : bool) : pass :=
  {| embeddings := []; position := 0; num_user_prompts := 0;
     open_user_prompt := false; use_cache := use_cache |}.

(** The two loops of [embed_chat], before the final concatenation. *)
Definition chat_loop self (use_cache : bool) : ChatHistory * result pass :=
  let '(es, outcome) := chat_entries self (entries self) (start_pass use_cache) in
  (with_entries self es, outcome).

(** [embed_chat(use_cache=True)]: the history afterwards, and the returned
    pair or the exception. *)
Definition embed_chat self (use_cache : bool) : ChatHistory * result (ndarray * nat) :=
  let '(self, outcome) := chat_loop self use_cache in
  (self,
   st ← outcome;
   embedding ← np_concatenate (embeddings st);
   Ok (embedding, position st)).

(** ** Entries, reset and the system prompt *)

(** [create_entry(role='user', input=None, **kwargs)] *)
Definition create_entry self (role : string) (input : value)
    (kwargs : list (string * value)) : result dict :=
  let entry := AttrDict (("role", VStr role) :: kwargs) in
  match input with
  | VNone => Ok entry
  | _ =>
      type ← embedding_type input;
      Ok (dict_set type input entry)
  end.

(** [add_entry(role='user', input=None, **kwargs)] *)
Definition add_entry self (role : string) (input : value)
    (kwargs : list (string * value)) : ChatHistory * result dict :=
  match create_entry self role input kwargs with
  | Ok entry => (with_entries self (entries self ++ [entry]), Ok entry)
  | Raise e => (self, Raise e)
  end.

(** [reset(add_system_prompt=True)] *)
Definition reset self (add_system_prompt : bool) : ChatHistory * result unit :=
  let self :=
    {| model := model self; template := template self;
       embedding_functions := embedding_functions self;
       entries := []; kv_cache := None;
       template_name := template_name self |} in
  if add_system_prompt then
    match template self !! "system_prompt" with
    | Some prompt =>
        let '(self, outcome) := add_entry self "system" VNone [("text", VStr prompt)] in
        (self, (fun _ => tt) <$> outcome)
    | None => (self, Raise (KeyError "system_prompt"))
    end
  else (self, Ok tt).

(** The getter of [system_prompt]. *)
Definition system_prompt self : result string :=
  match template self !! "system_prompt" with
  | Some prompt => Ok prompt
  | None => Raise (KeyError "system_prompt")
  end.

(** The setter of [system_prompt]. *)
Definition set_system_prompt self (instruction : string) : ChatHistory * result unit :=
  let self :=
    {| model := model self;
       template := <["system_prompt" := instruction]> (template self);
       embedding_functions := embedding_functions self;
       entries := entries self; kv_cache := kv_cache self;
       template_name := template_name self |} in
  reset self true.

(** ** Construction *)

(** The [template] argument of the constructor. *)
Inductive template_arg :=
| TNone
| TName (name : string)
| TDict (d : gmap string string).

(** [not template] *)
Definition template_missing (t : template_arg) : bool :=
  match t with
  | TNone => true
  | TName name => String.eqb name ""
  | TDict d => bool_decide (d = ∅)
  end.

(** The template name chosen from the model's name. *)
Definition detect_template (model_name : string) : result string :=
  let name := PyStr.lower model_name in
  if PyStr.contains "llama-2" name then
    if PyStr.contains "llava" name then Ok "llava-llama-2" else Ok "llama-2"
  else if PyStr.contains "vicuna" name then
    if PyStr.contains "v1" name then Ok "vicuna-v1" else Ok "vicuna-v0"
  else if PyStr.contains "llava" name then
    if PyStr.contains "v1" name then Ok "llava-v1" else Ok "llava-v0"
  else Raise (RuntimeError ("Couldn't automatically determine model type from "
                            +:+ model_name
                            +:+ ", please set the --chat-template argument")).

(** [ChatHistory(model, template=None, system_prompt=None)] *)
Definition init (m : LocalLM) (t : template_arg) (prompt : option string)
    : result ChatHistory :=
  t ← (if template_missing t
       then TName <$> detect_template (config_name m)
       else Ok t);
  tpl ← match t with
        | TName name =>
            match Templates.ChatTemplates !! name with
            | Some d => Ok d
            | None => Raise (KeyError name)
            end
        | TDict d => Ok d
        | TNone => Ok ∅
        end;
  let tpl := match prompt with
             | Some (String _ _ as p) => <["system_prompt" := p]> tpl
             | _ => tpl
             end in
  let self :=
    {| model := m; template := tpl; embedding_functions := ∅;
       entries := []; kv_cache := None; template_name := None |} in
  let self := register_embedding self "text" bound_embed_text in
  let self := register_embedding self "dict" bound_embed_dict in
  let self := register_embedding self "image" bound_embed_image in
  match reset self true with
  | (self, Ok _) => Ok self
  | (_, Raise e) => Raise e
  end.

End ChatHistory.

Arguments VNone {row}.
Arguments VList {row} items.
Arguments VDict {row} items.
Arguments VArray {row} a.
Arguments dict_get {row} k d.
Arguments dict_has {row} k d.
Arguments dict_set {row} k v d.
Arguments dict_keys {row} d.
Arguments AttrDict {row} items.
Arguments getitem {row} d k.
Arguments np_concatenate {row} arrays.
Arguments all_arrays {row} vs.
Arguments shape1 {row} v.
Arguments model {row} c.
Arguments template {row} c.
Arguments embedding_functions {row} c.
Arguments entries {row} c.
Arguments kv_cache {row} c.
Arguments template_name {row} c.
Arguments config_name {row} l.
Arguments lm_embed_text {row} l _ _.
Arguments lm_embed_image {row} l _.
Arguments func {row} e.
Arguments uses_template {row} e.
Arguments external {row} nparams f.
Arguments with_entries {row} self es.
Arguments register_embedding {row} self type f.
Arguments embeddings {row} p.
Arguments position {row} p.
Arguments num_user_prompts {row} p.
Arguments open_user_prompt {row} p.
Arguments use_cache {row} p.
Arguments start_pass {row} use_cache.
Arguments role_is {row} role name.
Arguments template_of_role {row} self role.
Arguments get_template_name {row} self.
Arguments py_type {row} v.
Arguments py_str {row} v.
Arguments nparams_of {row} f.
Arguments template_missing _ : assert.
Arguments count_user_prompt {row} role key st.
Arguments incremental_segment {row} ImageExtensions replace_text self key raw role role_template st entry.
Arguments full_segment {row} ImageExtensions replace_text self key raw role_template st entry.
Arguments system_prompt {row} self.
Arguments embed_dict_result {row} embeddings.
Arguments VStr {row} s.
Arguments VImage {row} handle.
Arguments bound_embed_text {row}.
Arguments bound_embed_dict {row}.
Arguments bound_embed_image {row}.
Arguments embedding_type {row} ImageExtensions input.
Arguments embed_text {row} replace_text self text template use_cache.
Arguments embed_image {row} replace_text self image template.
Arguments embed_dict {row} ImageExtensions replace_text self d template.
Arguments embed {row} ImageExtensions replace_text self input type template.
Arguments role_template_of {row} self st entry.
Arguments chat_segment {row} ImageExtensions replace_text self key st entry.
Arguments chat_keys {row} ImageExtensions replace_text self keys st entry.
Arguments chat_entry {row} ImageExtensions replace_text self st entry.
Arguments chat_entries {row} ImageExtensions replace_text self es st.
Arguments chat_loop {row} ImageExtensions replace_text self use_cache.
Arguments embed_chat {row} ImageExtensions replace_text self use_cache.
Arguments create_entry {row} ImageExtensions self role input kwargs.
Arguments add_entry {row} ImageExtensions self role input kwargs.
Arguments reset {row} ImageExtensions self add_system_prompt.
Arguments set_system_prompt {row} ImageExtensions self instruction.
Arguments init {row} ImageExtensions m t prompt.

(** ** Vocabulary for statements about a pass *)

(** [s] ends in one of the extensions. *)
Definition ends_with_one_of (exts : list string) (s : string) : Prop :=
  ∃ ext p, ext ∈ exts ∧ s = p +:+ ext.


Section Vocabulary.

Context {row : Type}.
Implicit Types (self : ChatHistory row) (entry : dict row) (key : string).

(** The key names a segment the pass does not skip: an embedding function
    is registered for it and the entry holds something other than None. *)
Definition embeddable self entry key : bool :=
  bool_decide (is_Some (embedding_functions self !! key))
  && match dict_get key entry with
     | Some VNone | None => false
     | Some _ => true
     end.

(** The segments of an entry, in the order the pass visits them. *)
Definition segments self entry : list string :=
  filter (λ key, embeddable self entry key = true) (dict_keys entry).

(** What the entry holds as the embedding of a segment. *)
Definition cached entry key : option (value row) :=
  dict_get (key +:+ "_embedding") entry.

(** The lengths of the embeddings an entry holds for the given segments. *)
Definition cached_length entry (keys : list string) : nat :=
  sum_list_with
    (λ key, match cached entry key with
            | Some (VArray a) => length a
            | _ => 0
            end) keys.

(** The total length of the embeddings held for the segments of the whole
    history. *)
Definition held_length self : nat :=
  sum_list_with (λ entry, cached_length entry (segments self entry)) (entries self).

(** What the entries of a history hold for their segments, entry after
    entry; [before] fixes which segments there are. *)
Definition held self (before after : list (dict row)) : list (option (value row)) :=
  concat (zip_with (λ e e', cached e' <$> segments self e) before after).

(** The table of embedding functions the constructor sets up. *)
Definition builtin_embeddings : gmap string (EmbeddingFunction row) :=
  <["image" := {| func := bound_embed_image; uses_template := true |}]>
    (<["dict" := {| func := bound_embed_dict; uses_template := true |}]>
       (<["text" := {| func := bound_embed_text; uses_template := true |}]> ∅)).

(** No embedding function is registered for a key under which the pass
    stores an embedding. *)
Definition cache_keys_unregistered self : Prop :=
  ∀ key, is_Some (embedding_functions self !! key) →
         embedding_functions self !! (key +:+ "_embedding") = None.

(** Whether a role template is found for a segment of an entry with this
    role, when [n] user prompts have been counted. *)
Definition resolves self (n : nat) (role : value row) : bool :=
  let by_role := match template_of_role self role with
                 | Ok (Some _) => true
                 | _ => false
                 end in
  match template self !! "first" with
  | Some _ => (role_is role "user" && (n =? 0)%nat) || by_role
  | None => by_role
  end.

(** The local variables with [open_user_prompt] replaced. *)
Definition with_open (st : pass row) (open : bool) : pass row :=
  {| embeddings := embeddings st; position := position st;
     num_user_prompts := num_user_prompts st;
     open_user_prompt := open; use_cache := use_cache st |}.

(** [entry'] has every item of [entry], with the same value. *)
Definition extends entry entry' : Prop :=
  ∀ k v, dict_get k entry = Some v → dict_get k entry' = Some v.

Variable ImageExtensions : list string.
Variable replace_text : string → dict row → result (value row).

(** Whatever [entry'] holds as the embedding of a segment for which [entry]
    held none is the result of embedding the segment's content, under some
    role template. *)
Definition stores_fresh self entry entry' : Prop :=
  ∀ key v,
    cached entry key = None → cached entry' key = Some v →
    ∃ raw tpl a,
      v = VArray a
      ∧ dict_get key entry = Some raw
      ∧ embed ImageExtensions replace_text self raw (Some key) (Some tpl) = Ok a.

End Vocabulary.

(** ** The remaining methods, and vocabulary for their statements *)

Section Methods.

Context {row : Type}.
Implicit Types (self : ChatHistory row) (entry : dict row) (key : string).

(** [__len__]: the number of entries in the chat history. *)
Definition len self : nat := length (entries self).

(** An item of a dict that [embed_dict] embeds: its value is not None and
    its key has an embedding function. *)
Definition item_embeddable self (kv : string * value row) : bool :=
  match kv.2 with
  | VNone => false
  | _ => bool_decide (is_Some (embedding_functions self !! kv.1))
  end.

(** The history with its entries and kv cache replaced. *)
Definition cleared self (es : list (dict row)) : ChatHistory row :=
  {| model := model self; template := template self;
     embedding_functions := embedding_functions self;
     entries := es; kv_cache := None;
     template_name := template_name self |}.

(** The entry [reset] adds for a system prompt. *)
Definition system_entry (prompt : string) : dict row :=
  [("role", VStr "system"); ("text", VStr prompt)].

(** An item a pass may add to an entry: the embedding of a segment, under
    the segment's cache key. *)
Definition cache_item self (kv : string * value row) : Prop :=
  ∃ key a, kv = (key +:+ "_embedding", VArray a)
           ∧ is_Some (embedding_functions self !! key).

(** The local variables of a pass once it has gone over entries that hold
    all their embeddings: nothing emitted, the position after what is held. *)
Definition resumed (position user_prompts : nat) : pass row :=
  {| embeddings := []; position := position; num_user_prompts := user_prompts;
     open_user_prompt := false; use_cache := true |}.

End Methods.

(** ** A concrete model for running the code

    Rows are characters: the text model embeds a string as its characters,
    so that an assembled embedding can be read back as the text the model
    was given. *)

Module Demo.

(** Modelled from the spec: utils.ImageExtensions is not part of the
    file; the spec only says a known image-file-extension set. *)
Definition ImageExtensions : list string :=
  [".png"; ".jpg"; ".jpeg"; ".tiff"; ".bmp"; ".gif"].

(** Modelled from the spec: utils.replace_text is not part of the file;
    the message body is substituted verbatim for the placeholder. *)
Definition replace_text (text : string) (d : dict ascii) : result (value ascii) :=
  VStr <$>
    foldl (fun acc kv =>
             text ← acc;
             match snd kv with
             | VStr v => Ok (PyStr.replace (fst kv) v text)
             | _ => Raise (TypeError "replace() argument 2 must be str")
             end)
          (Ok text) d.

Definition image_rows : list ascii := list_ascii_of_string "<img>".

Definition llava : LocalLM ascii :=
  {| config_name := "liuhaotian/llava-llama-2-13b-chat";
     lm_embed_text := fun text _ =>
       match text with
       | VStr s => Ok (list_ascii_of_string s)
       | _ => Raise (ModelError "tokenizer")
       end;
     lm_embed_image := fun _ => Ok image_rows |}.

(** A model without vision. *)
Definition vicuna : LocalLM ascii :=
  {| config_name := "lmsys/vicuna-7b-v1.5";
     lm_embed_text := lm_embed_text llava;
     lm_embed_image := fun _ => Raise (ModelError "vision") |}.

(** Histories built through the methods of the class. *)

Definition blank (m : LocalLM ascii) : ChatHistory ascii :=
  {| model := m; template := ∅; embedding_functions := ∅;
     entries := []; kv_cache := None; template_name := None |}.

(** [ChatHistory(m)] *)
Definition new_chat (m : LocalLM ascii) : ChatHistory ascii :=
  match init ImageExtensions m TNone None with
  | Ok h => h
  | Raise _ => blank m
  end.

(** The history after [add_entry(role, text)]. *)
Definition say (h : ChatHistory ascii) (role text : string) : ChatHistory ascii :=
  (add_entry ImageExtensions h role (VStr text) []).1.

(** The history after [embed_chat()]. *)
Definition assemble (h : ChatHistory ascii) : ChatHistory ascii :=
  (embed_chat ImageExtensions replace_text h true).1.

Definition hello_entry : dict ascii :=
  [("role", VStr "user"); ("text", VStr "hello")].

(** A vicuna chat: the user's first turn, not assembled yet. *)
Definition vicuna1 : ChatHistory ascii := say (new_chat vicuna) "user" "hello".

(** ... assembled once. *)
Definition vicuna2 : ChatHistory ascii := assemble vicuna1.

(** ... with the bot's answer and a second user turn, assembled again. *)
Definition vicuna3 : ChatHistory ascii :=
  assemble (say (say vicuna2 "bot" "hi there") "user" "bye").

(** ... with a third user turn, not assembled yet. *)
Definition vicuna4 : ChatHistory ascii := say vicuna3 "user" "thanks".

(** The bot's entry of [vicuna3]: cached by that assembly. *)
Definition bot_entry : dict ascii := default [] (entries vicuna3 !! 2).

(** A turn whose role the vicuna templates do not have. *)
Definition narrator : ChatHistory ascii := say vicuna2 "narrator" "meanwhile".

(** A llava chat whose first user turn holds an image and a question:
    [add_entry('user', 'What is this?', image='photo.jpg')]. *)
Definition llava1 : ChatHistory ascii :=
  (add_entry ImageExtensions (new_chat llava) "user" (VStr "What is this?")
     [("image", VStr "photo.jpg")]).1.

(** What the first [embed_chat()] of [vicuna1] returns. *)
Definition first_embedding : ndarray ascii :=
  match (embed_chat ImageExtensions replace_text vicuna1 true).2 with
  | Ok (t, _) => t
  | Raise _ => []
  end.

(** What [embed_chat(use_cache=False)] of [vicuna4] returns. *)
Definition full_embedding : ndarray ascii :=
  match (embed_chat ImageExtensions replace_text vicuna4 false).2 with
  | Ok (t, _) => t
  | Raise _ => []
  end.

(** The user's entry of [llava1]. *)
Definition picture_entry : dict ascii := default [] (entries llava1 !! 1).

(** The local variables at the end of the loop of the first [embed_chat()]
    of [vicuna1]. *)
Definition first_pass : pass ascii :=
  match (chat_loop ImageExtensions replace_text vicuna1 true).2 with
  | Ok st => st
  | Raise _ => start_pass true
  end.

(** A dict with an image, a value that is None, a key without embedding
    function and a text. *)
Definition mixed_items : list (string * value ascii) :=
  [("image", VStr "photo.jpg"); ("audio", VNone); ("role", VStr "user");
   ("text", VStr "What is this?")].

(** An embedding function of the caller, of one parameter. *)
Definition embed_audio (input : value ascii) (template : option string)
    : result (ndarray ascii) :=
  match input with
  | VStr s => Ok (list_ascii_of_string ("<audio " +:+ s +:+ ">"))
  | _ => Raise (TypeError "audio must be a path")
  end.

End Demo.

Local Abbreviation demo_segment := (chat_segment Demo.ImageExtensions Demo.replace_text).
Local Abbreviation demo_keys := (chat_keys Demo.ImageExtensions Demo.replace_text).
Local Abbreviation demo_loop := (chat_loop Demo.ImageExtensions Demo.replace_text).
Local Abbreviation demo_embed := (embed Demo.ImageExtensions Demo.replace_text).
Local Abbreviation demo_embed_chat := (embed_chat Demo.ImageExtensions Demo.replace_text).


(** ** Facts about dicts *)

Section DictFacts.

Context {row : Type}.
Implicit Types (d : dict row) (k : string) (v : value row).

Lemma dict_get_set_eq k v d : dict_get k (dict_set k v d) = Some v.
Proof.
  induction d as [|[k' v'] d IH]; simpl.
  - by rewrite String.eqb_refl.
  - destruct (String.eqb k k') eqn:E; simpl; rewrite ?String.eqb_refl, ?E; done.
Qed.

Lemma dict_get_set_ne k k' v d :
  k ≠ k' → dict_get k' (dict_set k v d) = dict_get k' d.
Proof.
  intros Hne. induction d as [|[k0 v0] d IH]; simpl.
  - by apply String.eqb_neq in Hne; rewrite String.eqb_sym, Hne.
  - destruct (String.eqb k k0) eqn:E; simpl.
    + apply String.eqb_eq in E; subst k0.
      assert (String.eqb k' k = false) as -> by (apply String.eqb_neq; congruence).
      done.
    + by rewrite IH.
Qed.

(** Storing under a key the dict lacks leaves every item it had. *)
Lemma dict_get_set_absent k k' v v' d :
  dict_get k d = None →
  dict_get k' d = Some v' →
  dict_get k' (dict_set k v d) = Some v'.
Proof.
  intros Hk Hk'. destruct (decide (k = k')) as [->|Hne]; [congruence|].
  by rewrite dict_get_set_ne.
Qed.

Lemma dict_set_absent k v d :
  dict_get k d = None → dict_set k v d = d ++ [(k, v)].
Proof.
  induction d as [|[k' v'] d IH]; simpl; [done|].
  destruct (String.eqb k k'); [done|]. intros H. by rewrite IH.
Qed.

End DictFacts.

(** ** Facts about the assembly pass *)

Section PassFacts.

Context {row : Type}.
Variable ImageExtensions : list string.
Variable replace_text : string → dict row → result (value row).

Implicit Types (self : ChatHistory row) (entry : dict row) (key : string)
  (st : pass row).

Local Abbreviation embed := (embed ImageExtensions replace_text).
Local Abbreviation incremental_segment := (incremental_segment ImageExtensions replace_text).
Local Abbreviation full_segment := (full_segment ImageExtensions replace_text).
Local Abbreviation chat_segment := (chat_segment ImageExtensions replace_text).
Local Abbreviation chat_keys := (chat_keys ImageExtensions replace_text).
Local Abbreviation chat_entry := (chat_entry ImageExtensions replace_text).
Local Abbreviation chat_entries := (chat_entries ImageExtensions replace_text).
Local Abbreviation chat_loop := (chat_loop ImageExtensions replace_text).
Local Abbreviation embed_chat := (embed_chat ImageExtensions replace_text).

Lemma extends_refl entry : extends entry entry.
Proof. by intros k v. Qed.

Lemma extends_trans (e1 e2 e3 : dict row) :
  extends e1 e2 → extends e2 e3 → extends e1 e3.
Proof. intros H12 H23 k v Hk. by apply H23, H12. Qed.

Lemma extends_set_absent k v entry :
  dict_get k entry = None → extends entry (dict_set k v entry).
Proof. intros Hk k' v' Hk'. eauto using dict_get_set_absent. Qed.

Local Hint Resolve extends_refl extends_set_absent : core.

(** *** A pass only ever adds items to an entry *)

Lemma incremental_segment_extends self key raw role tpl st entry :
  extends entry (incremental_segment self key raw role tpl st entry).1.
Proof.
  unfold incremental_segment.
  destruct (dict_get (key +:+ "_embedding") entry) eqn:Hc; simpl; [done|].
  destruct (embed _ _ _ _); simpl; [|done].
  destruct (negb _); simpl; auto.
Qed.

Lemma full_segment_extends self key raw tpl st entry :
  extends entry (full_segment self key raw tpl st entry).1.
Proof.
  unfold full_segment.
  destruct (dict_get (key +:+ "_embedding") entry) eqn:Hc; simpl; [done|].
  destruct (embed _ _ _ _); simpl; auto.
Qed.

Lemma chat_segment_extends self key st entry :
  extends entry (chat_segment self key st entry).1.
Proof.
  unfold chat_segment.
  destruct (embedding_functions self !! key); [|done].
  destruct (dict_get key entry) as [raw|]; [|done].
  destruct (role_template_of self st entry) as [[tpl open]|];
    destruct (getitem entry "role") as [role|]; try by destruct raw.
  set (st' := Build_pass _ _ _ _ _ _).
  pose proof (incremental_segment_extends self key raw role tpl st' entry).
  pose proof (full_segment_extends self key raw tpl st' entry).
  destruct raw; try done;
    (destruct (use_cache st');
     [destruct (incremental_segment _ _ _ _ _ _ _)|destruct (full_segment _ _ _ _ _ _)];
     done).
Qed.

Lemma chat_keys_extends self keys st entry :
  extends entry (chat_keys self keys st entry).1.
Proof.
  revert st entry. induction keys as [|key keys IH]; intros st entry; simpl; [done|].
  pose proof (chat_segment_extends self key st entry) as Hseg.
  destruct (chat_segment self key st entry) as [entry' [st'|e]]; simpl in *; [|done].
  eauto using extends_trans.
Qed.

Lemma chat_entries_extends self es st :
  Forall2 extends es (chat_entries self es st).1.
Proof.
  revert st. induction es as [|entry es IH]; intros st; simpl; [constructor|].
  pose proof (chat_keys_extends self (dict_keys entry) st entry) as Hent.
  unfold chat_entry.
  destruct (chat_keys self (dict_keys entry) st entry) as [entry' [st'|e]]; simpl in *.
  - specialize (IH st'). destruct (chat_entries self es st'); simpl in *.
    by constructor.
  - constructor; [done|]. apply Forall2_same_length_lookup_2; [done|].
    intros i x y Hx Hy. by simplify_eq.
Qed.

Lemma chat_loop_entries self use_cache :
  entries (chat_loop self use_cache).1
  = (chat_entries self (entries self) (start_pass use_cache)).1.
Proof. unfold chat_loop. by destruct (chat_entries _ _ _). Qed.

Lemma embed_chat_entries self use_cache :
  entries (embed_chat self use_cache).1
  = (chat_entries self (entries self) (start_pass use_cache)).1.
Proof.
  unfold embed_chat. rewrite <- chat_loop_entries.
  by destruct (chat_loop self use_cache).
Qed.

Lemma embed_chat_extends self use_cache :
  Forall2 extends (entries self) (entries (embed_chat self use_cache).1).
Proof. rewrite embed_chat_entries. apply chat_entries_extends. Qed.

(** *** Keys that the pass skips *)

Lemma chat_segment_skip self key st entry :
  embedding_functions self !! key = None ∨ dict_get key entry = Some VNone →
  chat_segment self key st entry = (entry, Ok st).
Proof.
  intros Hskip. unfold chat_segment. destruct Hskip as [-> | ->]; [done|].
  by destruct (embedding_functions self !! key).
Qed.

(** C10.  A key with no registered embedding function, or whose value is
    None, is skipped: the segment step raises nothing and changes neither
    the entry nor the local variables of the pass, so the keys after it
    are processed as if it were not there. *)
Theorem skipped_key_is_ignored self key keys st entry :
  embedding_functions self !! key = None ∨ dict_get key entry = Some VNone →
  chat_segment self key st entry = (entry, Ok st)
  ∧ chat_keys self (key :: keys) st entry = chat_keys self keys st entry.
Proof.
  intros Hskip. pose proof (chat_segment_skip self key st entry Hskip) as Hseg.
  split; [done|]. simpl. by rewrite Hseg.
Qed.

(** *** Failure leaves cached embeddings alone *)

(** C9.  When an assembly call fails, every cached embedding an entry held
    before the call is held, unchanged, by the same entry afterwards. *)
Theorem failed_embed_chat_keeps_cache self use_cache :
  is_Raise (embed_chat self use_cache).2 = true →
  Forall2
    (λ entry entry', ∀ key v,
       dict_get (key +:+ "_embedding") entry = Some v →
       dict_get (key +:+ "_embedding") entry' = Some v)
    (entries self) (entries (embed_chat self use_cache).1).
Proof.
  intros _. eapply Forall2_impl; [apply embed_chat_extends|].
  intros entry entry' Hext key v. apply Hext.
Qed.

End PassFacts.

(** ** Facts about the string operations *)

Section PyStrFacts.

Implicit Types (s p suffix sep : string) (k i : nat) (c : ascii).

Lemma substring_whole s : String.substring 0 (String.length s) s = s.
Proof. induction s as [|c s IH]; simpl; [done|]. by rewrite IH. Qed.

Lemma app_cons c p s : String c p +:+ s = String c (p +:+ s).
Proof. reflexivity. Qed.

Lemma length_app p s :
  String.length (p +:+ s) = (String.length p + String.length s)%nat.
Proof. induction p as [|c p IH]; [done|]. rewrite app_cons. simpl. by rewrite IH. Qed.

Lemma substring_app_tail p s :
  String.substring (String.length p) (String.length s) (p +:+ s) = s.
Proof.
  induction p as [|c p IH]; [apply substring_whole|].
  rewrite app_cons. simpl. done.
Qed.

Lemma substring_cut s k :
  (k <= String.length s)%nat →
  s = String.substring 0 k s +:+ String.substring k (String.length s - k) s.
Proof.
  revert k. induction s as [|c s IH]; intros [|k] Hk; simpl in *; try done; try lia.
  - by rewrite substring_whole.
  - rewrite app_cons. f_equal. apply IH. lia.
Qed.

(** A string ends with [suffix] exactly when it is something followed by
    [suffix]. *)
Lemma endswith1_spec s suffix :
  PyStr.endswith1 s suffix = true ↔ ∃ p, s = p +:+ suffix.
Proof.
  unfold PyStr.endswith1. rewrite andb_true_iff, Nat.leb_le, String.eqb_eq. split.
  - intros [Hle Hsub]. exists (String.substring 0 (String.length s - String.length suffix) s).
    pose proof (substring_cut s (String.length s - String.length suffix)) as Hcut.
    replace (String.length s - (String.length s - String.length suffix))%nat
      with (String.length suffix) in Hcut by lia.
    rewrite Hsub in Hcut. apply Hcut. lia.
  - intros [p ->]. rewrite length_app. split; [lia|].
    replace (String.length p + String.length suffix - String.length suffix)%nat
      with (String.length p) by lia.
    apply substring_app_tail.
Qed.

Lemma prefix_app sep s : String.prefix sep s = true → ∃ rest, s = sep +:+ rest.
Proof.
  revert s. induction sep as [|c sep IH]; intros s; simpl.
  - destruct s; eauto.
  - destruct s as [|c' s]; simpl; [done|].
    destruct (Ascii.ascii_dec c c') as [->|]; [|done].
    intros [rest ->]%IH. eauto.
Qed.

Lemma index_found sep s i :
  String.index 0 sep s = Some i →
  ∃ rest, s = String.substring 0 i s +:+ sep +:+ rest.
Proof.
  revert i. induction s as [|c s IH]; intros i Hi.
  - simpl in Hi. destruct sep; simplify_eq. by exists "".
  - change (String.index 0 sep (String c s))
      with (if String.prefix sep (String c s) then Some 0
            else match String.index 0 sep s with
                 | Some n => Some (S n)
                 | None => None
                 end) in Hi.
    destruct (String.prefix sep (String c s)) eqn:Hpre.
    + simplify_eq. apply prefix_app in Hpre as [rest Hrest]. by exists rest.
    + destruct (String.index 0 sep s) as [n|]; simplify_eq.
      destruct (IH n eq_refl) as [rest Hrest].
      exists rest. simpl. rewrite app_cons. by rewrite <- Hrest.
Qed.

(** What [split_head] returns: the part before the first occurrence of the
    separator, or the whole string when there is none. *)
Lemma split_head_found sep s :
  PyStr.contains sep s = true →
  ∃ rest, s = PyStr.split_head sep s +:+ sep +:+ rest.
Proof.
  unfold PyStr.contains, PyStr.split_head.
  destruct (String.index 0 sep s) as [i|] eqn:Hi; [intros _|done].
  by apply index_found.
Qed.

Lemma split_head_absent sep s :
  PyStr.contains sep s = false → PyStr.split_head sep s = s.
Proof.
  unfold PyStr.contains, PyStr.split_head.
  by destruct (String.index 0 sep s).
Qed.

Lemma app_inj_suffix p1 p2 s : p1 +:+ s = p2 +:+ s → p1 = p2.
Proof.
  revert p2. induction p1 as [|c p1 IH]; intros [|c2 p2]; try done.
  - intros H. apply (f_equal String.length) in H.
    rewrite !length_app in H. simpl in H. lia.
  - intros H. apply (f_equal String.length) in H.
    rewrite !length_app in H. simpl in H. lia.
  - rewrite !app_cons. intros [= -> H]. by rewrite (IH p2 H).
Qed.

End PyStrFacts.

(** ** Content-type resolution *)

Lemma endswith_spec s exts :
  PyStr.endswith s exts = true ↔ ends_with_one_of exts s.
Proof.
  unfold PyStr.endswith, ends_with_one_of. rewrite existsb_exists. split.
  - intros (ext & Hin & [p Hp]%endswith1_spec). exists ext, p.
    by rewrite list_elem_of_In.
  - intros (ext & p & Hin & Hp). exists ext. rewrite <- list_elem_of_In.
    split; [done|]. apply endswith1_spec. eauto.
Qed.

Section EmbeddingFacts.

Context {row : Type}.
Variable ImageExtensions : list string.
Variable replace_text : string → dict row → result (value row).

Implicit Types (self : ChatHistory row) (image : value row) (t : string).

Local Abbreviation embedding_type := (@embedding_type row ImageExtensions).
Local Abbreviation embed_image := (embed_image replace_text).
Local Abbreviation embed_text := (embed_text replace_text).

(** X1.  The string branch of [embedding_type] (lines 319-323), the only one
    that does not evaluate [PIL]: a string resolves to 'image' when it ends
    in one of the known image-file extensions and to 'text' otherwise. *)
Theorem embedding_type_of_string s :
  (ends_with_one_of ImageExtensions s ∧ embedding_type (VStr s) = Ok "image")
  ∨ (¬ ends_with_one_of ImageExtensions s ∧ embedding_type (VStr s) = Ok "text").
Proof.
  unfold embedding_type.
  destruct (PyStr.endswith s ImageExtensions) eqn:E.
  - left. split; [by apply endswith_spec|done].
  - right. split; [|done]. intros H%endswith_spec. congruence.
Qed.

(** Text handed to [embed_text] without a template goes to the model as it
    is. *)
Lemma embed_text_plain self text use_cache :
  embed_text self text None use_cache = lm_embed_text (model self) text use_cache.
Proof. reflexivity. Qed.

(** C6.  With a template that counts as supplied (a non-empty string), the
    embedding of an image is the text embedding of the part of the template
    before the placeholder, then the model's embedding of the image, then
    the text embedding of a newline, joined along the sequence axis; with no
    template (or an empty one) the first part is left out. *)
Theorem embed_image_parts self image t prefix visual newline :
  t ≠ "" →
  lm_embed_text (model self) (VStr (PyStr.split_head PyStr.MESSAGE t)) true = Ok prefix →
  lm_embed_image (model self) image = Ok visual →
  lm_embed_text (model self) (VStr PyStr.nl) true = Ok newline →
  embed_image self image (Some t) = Ok (prefix ++ visual ++ newline)
  ∧ embed_image self image None = Ok (visual ++ newline)
  ∧ embed_image self image (Some "") = Ok (visual ++ newline).
Proof.
  intros Ht Hprefix Hvisual Hnewline.
  unfold embed_image, embed_text.
  destruct t as [|c t]; [done|]. simpl.
  rewrite Hprefix, Hvisual, Hnewline. simpl.
  by rewrite !app_nil_r.
Qed.

End EmbeddingFacts.

(** ** One segment of the pass *)

Section SegmentFacts.

Context {row : Type}.
Variable ImageExtensions : list string.
Variable replace_text : string → dict row → result (value row).

Implicit Types (self : ChatHistory row) (entry : dict row) (key : string)
  (st : pass row) (raw role : value row).

Local Abbreviation embed := (embed ImageExtensions replace_text).
Local Abbreviation incremental_segment := (incremental_segment ImageExtensions replace_text).
Local Abbreviation full_segment := (full_segment ImageExtensions replace_text).
Local Abbreviation chat_segment := (chat_segment ImageExtensions replace_text).
Local Abbreviation chat_keys := (chat_keys ImageExtensions replace_text).
Local Abbreviation chat_entries := (chat_entries ImageExtensions replace_text).
Local Abbreviation embed_chat := (embed_chat ImageExtensions replace_text).

(** The segment step on a key that is not skipped and whose role template
    is found. *)
Lemma chat_segment_processed self key st entry raw tpl open role :
  is_Some (embedding_functions self !! key) →
  dict_get key entry = Some raw → raw ≠ VNone →
  role_template_of self st entry = Ok (tpl, open) →
  getitem entry "role" = Ok role →
  chat_segment self key st entry
  = let step :=
      if use_cache st
      then incremental_segment self key raw role tpl (with_open st open) entry
      else full_segment self key raw tpl (with_open st open) entry in
    (step.1, count_user_prompt role key <$> step.2).
Proof.
  intros [ef Hef] Hraw Hnone Htpl Hrole. unfold chat_segment.
  rewrite Hef, Hraw, Htpl, Hrole. unfold with_open. simpl.
  destruct raw; try done;
    (destruct (use_cache st);
     [destruct (incremental_segment _ _ _ _ _ _ _)|destruct (full_segment _ _ _ _ _ _)];
     done).
Qed.

(** A role template is only found for an entry that has a role. *)
Lemma role_template_of_role self st entry tpl open :
  role_template_of self st entry = Ok (tpl, open) →
  ∃ role, getitem entry "role" = Ok role.
Proof.
  unfold role_template_of.
  destruct (getitem entry "role") as [role|e]; [eauto|].
  by destruct (template self !! "first").
Qed.

(** C1, as the code has it.  While [use_cache] is still true, a segment
    whose embedding is already held by the entry is not emitted again and
    the length of the held embedding is added to the position, whatever the
    role of the entry is (for a bot entry as for any other). *)
Theorem cache_hit_advances_position self key st entry raw tpl open cached :
  use_cache st = true →
  is_Some (embedding_functions self !! key) →
  dict_get key entry = Some raw → raw ≠ VNone →
  role_template_of self st entry = Ok (tpl, open) →
  dict_get (key +:+ "_embedding") entry = Some (VArray cached) →
  ∃ st', chat_segment self key st entry = (entry, Ok st')
         ∧ embeddings st' = embeddings st
         ∧ position st' = position st + length cached
         ∧ use_cache st' = true.
Proof.
  intros Huse Hef Hraw Hnone Htpl Hcached.
  destruct (role_template_of_role _ _ _ _ _ Htpl) as [role Hrole].
  rewrite (chat_segment_processed _ _ _ _ _ _ _ _ Hef Hraw Hnone Htpl Hrole).
  rewrite Huse. unfold incremental_segment. simpl. rewrite Hcached. simpl.
  eexists. split; [reflexivity|].
  unfold count_user_prompt. by destruct (_ && _).
Qed.

(** *** The first-turn override *)

(** The role template when the override does not apply: the entry's own
    role is looked up. *)
Lemma role_template_of_by_role self st entry role tpl open :
  getitem entry "role" = Ok role →
  template self !! "first" = None
  ∨ role_is role "user" = false ∨ num_user_prompts st ≠ 0 →
  role_template_of self st entry = Ok (tpl, open) →
  open = false ∧
  ∃ t, template_of_role self role = Ok (Some t)
       ∧ tpl = if open_user_prompt st
               then PyStr.slice_from (PyStr.find PyStr.MESSAGE t) t
               else t.
Proof.
  intros Hrole Hno. unfold role_template_of. rewrite Hrole. simpl.
  assert ((role_is role "user" && (num_user_prompts st =? 0)%nat) = false
          ∨ template self !! "first" = None) as Hcase.
  { destruct Hno as [?|[->|Hn]]; [by right|by left|left].
    apply Nat.eqb_neq in Hn. rewrite Hn. by destruct (role_is _ _). }
  destruct (template_of_role self role) as [[t|]|] eqn:Hof; simpl.
  - destruct (open_user_prompt st);
      (destruct (template self !! "first"); [destruct Hcase as [->|?]; [|done]|]);
      intros ?; simplify_eq; eauto.
  - destruct (get_template_name self);
      (destruct (template self !! "first"); [destruct Hcase as [->|?]; [|done]|]);
      done.
  - destruct (template self !! "first"); [destruct Hcase as [->|?]; [|done]|]; done.
Qed.

(** C3, as the code has it.  Where the template set defines 'first', a
    segment that is not skipped gets the 'first' template exactly when its
    entry has role 'user' and no text segment of a user entry has been
    counted yet, whatever its key is (image as well as text); any other
    segment gets the template of its own role, or what is left of it from
    the placeholder on.  The counter goes up by one after a text segment of
    a user entry and stays as it is after any other segment. *)
Theorem first_template_rule self key st entry raw role :
  is_Some (embedding_functions self !! key) →
  dict_get key entry = Some raw → raw ≠ VNone →
  getitem entry "role" = Ok role →
  (∀ first,
     template self !! "first" = Some first →
     role_is role "user" = true → num_user_prompts st = 0 →
     role_template_of self st entry = Ok (first, open_user_prompt st))
  ∧ (∀ tpl open,
       template self !! "first" = None
       ∨ role_is role "user" = false ∨ num_user_prompts st ≠ 0 →
       role_template_of self st entry = Ok (tpl, open) →
       ∃ t, template_of_role self role = Ok (Some t)
            ∧ tpl = if open_user_prompt st
                    then PyStr.slice_from (PyStr.find PyStr.MESSAGE t) t
                    else t)
  ∧ (∀ entry' st',
       chat_segment self key st entry = (entry', Ok st') →
       num_user_prompts st'
       = num_user_prompts st
         + (if role_is role "user" && String.eqb key "text" then 1 else 0)).
Proof.
  intros Hef Hraw Hnone Hrole. split; [|split].
  - intros first Hfirst Huser Hnum. unfold role_template_of.
    by rewrite Hfirst, Hrole; simpl; rewrite Huser, Hnum.
  - intros tpl open Hno Htpl.
    by destruct (role_template_of_by_role _ _ _ _ _ _ Hrole Hno Htpl) as [_ ?].
  - intros entry' st'.
    destruct (role_template_of self st entry) as [[tpl open]|e] eqn:Htpl.
    + rewrite (chat_segment_processed _ _ _ _ _ _ _ _ Hef Hraw Hnone Htpl Hrole).
      simpl. intros Hstep.
      assert (∀ step : dict row * result (pass row),
                (∀ st1, step.2 = Ok st1 →
                        num_user_prompts st1 = num_user_prompts st) →
                (step.1, count_user_prompt role key <$> step.2) = (entry', Ok st') →
                num_user_prompts st'
                = num_user_prompts st
                  + (if role_is role "user" && String.eqb key "text" then 1 else 0))
        as Hcount.
      { intros [e1 [st1|x]] Hsame; simpl; intros ?; simplify_eq.
        specialize (Hsame st1 eq_refl). unfold count_user_prompt.
        destruct (_ && _); simpl; lia. }
      eapply Hcount; [|exact Hstep]. clear Hstep Hcount.
      intros st1. unfold incremental_segment, full_segment.
      destruct (use_cache st);
        destruct (dict_get (key +:+ "_embedding") entry) as [c|]; simpl.
      * destruct (shape1 c); simpl; intros ?; by simplify_eq.
      * destruct (embed _ _ _ _); simpl; [|done].
        destruct (negb _); simpl; intros ?; by simplify_eq.
      * intros ?; by simplify_eq.
      * destruct (embed _ _ _ _); simpl; intros ?; by simplify_eq.
    + destruct Hef as [ef Hef]. unfold chat_segment.
      rewrite Hef, Hraw, Htpl. by destruct raw.
Qed.

End SegmentFacts.

(** ** Reset, the system prompt and the missing role template *)

Section HistoryFacts.

Context {row : Type}.
Variable ImageExtensions : list string.
Variable replace_text : string → dict row → result (value row).

Implicit Types (self : ChatHistory row) (entry : dict row) (st : pass row).

Local Abbreviation embed_text := (embed_text replace_text).
Local Abbreviation embed := (embed ImageExtensions replace_text).
Local Abbreviation chat_segment := (chat_segment ImageExtensions replace_text).
Local Abbreviation embed_chat := (embed_chat ImageExtensions replace_text).
Local Abbreviation set_system_prompt := (@set_system_prompt row ImageExtensions).
Local Abbreviation init := (@init row ImageExtensions).

(** What the role lookup raises when the role has no template: the message
    of the RuntimeError names [self.template_name], so building it fails on
    a history that has no such attribute. *)
Lemma missing_role_template self st entry role :
  getitem entry "role" = Ok (VStr role) →
  template self !! role = None →
  template self !! "first" = None ∨ role ≠ "user" ∨ num_user_prompts st ≠ 0 →
  role_template_of self st entry
  = match template_name self with
    | Some name =>
        Raise (RuntimeError ("chat template " +:+ name
                             +:+ " didn't have an entry for role=" +:+ role))
    | None =>
        Raise (AttributeError "'ChatHistory' object has no attribute 'template_name'")
    end.
Proof.
  intros Hrole Hnone Hno. unfold role_template_of, get_template_name.
  rewrite Hrole. simpl. rewrite Hnone.
  assert ((String.eqb role "user" && (num_user_prompts st =? 0)%nat) = false
          ∨ template self !! "first" = None) as Hcase.
  { destruct Hno as [?|[Hr|Hn]]; [by right|left..].
    - apply String.eqb_neq in Hr. by rewrite Hr.
    - apply Nat.eqb_neq in Hn. rewrite Hn. by destruct (String.eqb _ _). }
  destruct (template self !! "first"); [destruct Hcase as [->|?]; [|done]|];
    by destruct (template_name self).
Qed.

(** The constructor never sets [template_name]. *)
Lemma init_template_name m t prompt self :
  init m t prompt = Ok self → template_name self = None.
Proof.
  unfold init.
  destruct (if template_missing t then _ else _) as [t'|]; simpl; [|done].
  destruct (match t' with TNone => _ | _ => _ end) as [tpl|]; simpl; [|done].
  unfold reset, add_entry, create_entry. simpl.
  destruct (_ !! "system_prompt"); simpl; intros ?; by simplify_eq.
Qed.

(** C8.  Setting the system prompt to [x] stores [x] in the template and
    resets the history: the entries are replaced by one fresh system entry
    carrying [x], with no cached embedding, and the kv cache is dropped.
    The next assembly then returns the embedding of [x] under the system
    template, at cache position 0. *)
Theorem set_system_prompt_resets self x sys emb :
  template self !! "system" = Some sys →
  embedding_functions self !! "text"
  = Some {| func := bound_embed_text; uses_template := true |} →
  embedding_functions self !! "role" = None →
  embed_text self (VStr x) (Some sys) false = Ok emb →
  let after := set_system_prompt self x in
  after.2 = Ok tt
  ∧ template after.1 !! "system_prompt" = Some x
  ∧ entries after.1 = [[("role", VStr "system"); ("text", VStr x)]]
  ∧ kv_cache after.1 = None
  ∧ (embed_chat after.1 true).2 = Ok (emb, 0)
  ∧ entries (embed_chat after.1 true).1
    = [[("role", VStr "system"); ("text", VStr x); ("text_embedding", VArray emb)]].
Proof.
  intros Hsys Htext Hrole Hemb after.
  assert (after = (with_entries
                     {| model := model self;
                        template := <["system_prompt" := x]> (template self);
                        embedding_functions := embedding_functions self;
                        entries := []; kv_cache := None;
                        template_name := template_name self |}
                     [[("role", VStr "system"); ("text", VStr x)]], Ok tt)) as ->.
  { unfold after, set_system_prompt, reset. simpl. by rewrite lookup_insert_eq. }
  simpl. rewrite lookup_insert_eq.
  do 4 (split; [done|]).
  set (self' := with_entries _ _).
  set (entry := [("role", VStr "system"); ("text", VStr x)] : dict row).
  assert (role_template_of self' (start_pass true) entry = Ok (sys, false)) as Htpl.
  { unfold role_template_of. simpl.
    rewrite !lookup_insert_ne by done. rewrite Hsys.
    by destruct (template self !! "first"). }
  assert (chat_segment self' "text" (start_pass true) entry
          = (entry ++ [("text_embedding", VArray emb)],
             Ok {| embeddings := [VArray emb]; position := 0;
                   num_user_prompts := 0; open_user_prompt := false;
                   use_cache := false |})) as Hseg.
  { erewrite (chat_segment_processed ImageExtensions replace_text
                self' "text" (start_pass true) entry (VStr x) sys false (VStr "system"));
      [|by change (embedding_functions self') with (embedding_functions self);
           rewrite Htext|done..].
    simpl. unfold incremental_segment. simpl.
    change (embedding_functions self') with (embedding_functions self).
    rewrite Htext. simpl.
    change (embed_text self' (VStr x) (Some sys) false)
      with (embed_text self (VStr x) (Some sys) false).
    by rewrite Hemb. }
  unfold embed_chat, chat_loop.
  change (entries self') with [entry]. simpl.
  unfold chat_entry. simpl.
  rewrite (chat_segment_skip ImageExtensions replace_text self' "role") by (by left).
  rewrite Hseg. simpl. by rewrite app_nil_r.
Qed.

End HistoryFacts.

(** ** The shape of a successful segment step *)

Section StepShape.

Context {row : Type}.
Variable ImageExtensions : list string.
Variable replace_text : string → dict row → result (value row).

Implicit Types (self : ChatHistory row) (entry e : dict row) (key : string)
  (st : pass row) (raw role v : value row).

Local Abbreviation embed := (embed ImageExtensions replace_text).
Local Abbreviation incremental_segment := (incremental_segment ImageExtensions replace_text).
Local Abbreviation full_segment := (full_segment ImageExtensions replace_text).
Local Abbreviation chat_segment := (chat_segment ImageExtensions replace_text).

Lemma count_user_prompt_fields role key st :
  embeddings (count_user_prompt role key st) = embeddings st
  ∧ position (count_user_prompt role key st) = position st
  ∧ use_cache (count_user_prompt role key st) = use_cache st
  ∧ open_user_prompt (count_user_prompt role key st) = open_user_prompt st
  ∧ num_user_prompts (count_user_prompt role key st)
    = num_user_prompts st
      + (if role_is role "user" && String.eqb key "text" then 1 else 0).
Proof. unfold count_user_prompt. destruct (_ && _); simpl; repeat split; lia. Qed.

Lemma embeddable_true self e key :
  embeddable self e key = true ↔
  is_Some (embedding_functions self !! key)
  ∧ ∃ raw, dict_get key e = Some raw ∧ raw ≠ VNone.
Proof.
  unfold embeddable. rewrite andb_true_iff, bool_decide_eq_true. split.
  - intros [Hef Hraw]. split; [done|].
    destruct (dict_get key e) as [[]|]; try done; eexists; split; done.
  - intros [Hef (raw & -> & Hraw)]. split; [done|]. by destruct raw.
Qed.

(** A step that succeeds either skips the key or runs one of the two
    branches on it. *)
Lemma chat_segment_Ok self key st e e' st' :
  chat_segment self key st e = (e', Ok st') →
  (embeddable self e key = false ∧ e' = e ∧ st' = st)
  ∨ (embeddable self e key = true
     ∧ ∃ raw role tpl open st1,
         dict_get key e = Some raw
         ∧ getitem e "role" = Ok role
         ∧ role_template_of self st e = Ok (tpl, open)
         ∧ (if use_cache st
            then incremental_segment self key raw role tpl (with_open st open) e
            else full_segment self key raw tpl (with_open st open) e)
           = (e', Ok st1)
         ∧ st' = count_user_prompt role key st1).
Proof.
  intros Hstep.
  destruct (embeddable self e key) eqn:Hemb.
  - right. split; [done|].
    apply embeddable_true in Hemb as [Hef (raw & Hraw & Hnone)].
    destruct (role_template_of self st e) as [[tpl open]|x] eqn:Htpl.
    + destruct (role_template_of_role _ _ _ _ _ Htpl) as [role Hrole].
      rewrite (chat_segment_processed ImageExtensions replace_text
                 _ _ _ _ _ _ _ _ Hef Hraw Hnone Htpl Hrole) in Hstep.
      simpl in Hstep.
      destruct (if use_cache st then _ else _) as [e1 [st1|x]] eqn:Hbranch;
        simpl in Hstep; simplify_eq.
      by exists raw, role, tpl, open, st1.
    + destruct Hef as [ef Hef]. unfold chat_segment in Hstep.
      rewrite Hef, Hraw, Htpl in Hstep. by destruct raw.
  - left. unfold embeddable in Hemb. unfold chat_segment in Hstep.
    destruct (embedding_functions self !! key) as [ef|]; [|by simplify_eq].
    rewrite bool_decide_eq_true_2 in Hemb by eauto. simpl in Hemb.
    destruct (dict_get key e) as [[]|]; by simplify_eq.
Qed.

(** The branch for [use_cache] false: the segment's embedding, held already
    or computed now, is emitted. *)
Lemma full_segment_Ok self key raw tpl st e e' st' :
  full_segment self key raw tpl st e = (e', Ok st') →
  position st' = position st
  ∧ num_user_prompts st' = num_user_prompts st
  ∧ use_cache st' = false
  ∧ ∃ v, cached e' key = Some v
         ∧ embeddings st' = embeddings st ++ [v]
         ∧ ((cached e key = Some v ∧ e' = e)
            ∨ (cached e key = None
               ∧ ∃ a, v = VArray a
                      ∧ embed self raw (Some key) (Some tpl) = Ok a
                      ∧ e' = e ++ [(key +:+ "_embedding", VArray a)])).
Proof.
  unfold full_segment, cached.
  destruct (dict_get (key +:+ "_embedding") e) as [c|] eqn:Hc.
  - intros ?; simplify_eq. simpl. do 3 (split; [done|]).
    exists c. eauto.
  - destruct (embed self raw (Some key) (Some tpl)) as [a|x]; intros ?; simplify_eq.
    simpl. do 3 (split; [done|]). exists (VArray a).
    rewrite dict_get_set_eq. split; [done|]. split; [done|]. right.
    split; [done|]. exists a. by rewrite dict_set_absent.
Qed.

(** The branch for [use_cache] true: a held embedding is counted, a new one
    is stored and then counted (bot) or emitted (any other role). *)
Lemma incremental_segment_Ok self key raw role tpl st e e' st' :
  incremental_segment self key raw role tpl st e = (e', Ok st') →
  num_user_prompts st' = num_user_prompts st
  ∧ ((∃ a, cached e key = Some (VArray a) ∧ e' = e
           ∧ embeddings st' = embeddings st
           ∧ position st' = position st + length a
           ∧ use_cache st' = true)
     ∨ (cached e key = None
        ∧ ∃ a, embed self raw (Some key) (Some tpl) = Ok a
               ∧ e' = e ++ [(key +:+ "_embedding", VArray a)]
               ∧ if role_is role "bot"
                 then embeddings st' = embeddings st
                      ∧ position st' = position st + length a
                      ∧ use_cache st' = true
                 else embeddings st' = embeddings st ++ [VArray a]
                      ∧ position st' = position st
                      ∧ use_cache st' = false)).
Proof.
  unfold incremental_segment, cached.
  destruct (dict_get (key +:+ "_embedding") e) as [c|] eqn:Hc.
  - destruct c; simpl; intros ?; simplify_eq. simpl. split; [done|]. left.
    eauto 10.
  - destruct (embed self raw (Some key) (Some tpl)) as [a|x]; [|intros ?; simplify_eq].
    rewrite dict_set_absent by done.
    destruct (role_is role "bot"); simpl; intros ?; simplify_eq; simpl;
      (split; [done|]); right; (split; [done|]); exists a; done.
Qed.

End StepShape.

(** ** A pass over keys and entries *)

Section PassShape.

Context {row : Type}.
Variable ImageExtensions : list string.
Variable replace_text : string → dict row → result (value row).

Implicit Types (self : ChatHistory row) (entry e : dict row) (key : string)
  (keys : list string) (st : pass row) (raw role v : value row)
  (es : list (dict row)).

Local Abbreviation embed := (embed ImageExtensions replace_text).
Local Abbreviation chat_segment := (chat_segment ImageExtensions replace_text).
Local Abbreviation chat_keys := (chat_keys ImageExtensions replace_text).
Local Abbreviation chat_entry := (chat_entry ImageExtensions replace_text).
Local Abbreviation chat_entries := (chat_entries ImageExtensions replace_text).
Local Abbreviation chat_loop := (chat_loop ImageExtensions replace_text).
Local Abbreviation embed_chat := (embed_chat ImageExtensions replace_text).
Local Abbreviation stores_fresh := (stores_fresh ImageExtensions replace_text).

Lemma dict_get_keys key e : key ∈ dict_keys e ↔ is_Some (dict_get key e).
Proof.
  induction e as [|[k v] e IH]; simpl.
  - rewrite elem_of_nil. split; [done|]. by intros [? ?].
  - rewrite elem_of_cons, IH. destruct (String.eqb key k) eqn:E.
    + apply String.eqb_eq in E. split; [eauto|]. by left.
    + apply String.eqb_neq in E. split; [by intros [?|?]|by right].
Qed.

Lemma dict_get_app_l key e added v :
  dict_get key e = Some v → dict_get key (e ++ added) = Some v.
Proof.
  induction e as [|[k w] e IH]; simpl; [done|].
  by destruct (String.eqb key k).
Qed.

Lemma dict_get_app_r key e added :
  dict_get key e = None → dict_get key (e ++ added) = dict_get key added.
Proof.
  induction e as [|[k w] e IH]; simpl; [done|].
  by destruct (String.eqb key k).
Qed.

Lemma extends_app e added : extends e (e ++ added).
Proof. intros k v. apply dict_get_app_l. Qed.

Lemma extends_embeddable self e e' key :
  extends e e' → is_Some (dict_get key e) →
  embeddable self e' key = embeddable self e key.
Proof.
  intros Hext [raw Hraw]. unfold embeddable. by rewrite Hraw, (Hext _ _ Hraw).
Qed.

Lemma extends_keys e e' keys :
  extends e e' →
  (∀ key, key ∈ keys → is_Some (dict_get key e)) →
  ∀ key, key ∈ keys → is_Some (dict_get key e').
Proof. intros Hext Hin key [raw Hraw]%Hin. rewrite (Hext _ _ Hraw). eauto. Qed.

Lemma filter_embeddable_ext self e e' keys :
  (∀ key, key ∈ keys → embeddable self e' key = embeddable self e key) →
  filter (λ key, embeddable self e' key = true) keys
  = filter (λ key, embeddable self e key = true) keys.
Proof.
  induction keys as [|key keys IH]; intros Hsame; [done|].
  rewrite !filter_cons, (Hsame key) by left.
  rewrite IH by (intros k Hk; apply Hsame; by right). done.
Qed.

Lemma cached_extends e e' key v :
  extends e e' → cached e key = Some v → cached e' key = Some v.
Proof. intros Hext. apply Hext. Qed.

(** [np.concatenate] succeeds on arrays only, and joins them. *)
Lemma all_arrays_Some (vs : list (value row)) arrays :
  all_arrays vs = Some arrays → vs = VArray <$> arrays.
Proof.
  revert arrays. induction vs as [|v vs IH]; intros arrays; simpl.
  - by intros [= <-].
  - destruct v; try done. destruct (all_arrays vs) as [rest|]; [|done].
    simpl. intros [= <-]. simpl. by rewrite (IH rest).
Qed.

Lemma np_concatenate_Ok (vs : list (value row)) t :
  np_concatenate vs = Ok t →
  vs ≠ [] ∧ ∃ arrays, vs = VArray <$> arrays ∧ t = concat arrays.
Proof.
  unfold np_concatenate. destruct vs as [|v vs]; [done|].
  destruct (all_arrays (v :: vs)) as [arrays|] eqn:Harr; [|done].
  intros [= <-]. split; [done|]. exists arrays. by apply all_arrays_Some in Harr.
Qed.

(** *** With [use_cache] false *)

Lemma full_keys self keys st e e' st' :
  use_cache st = false →
  (∀ key, key ∈ keys → is_Some (dict_get key e)) →
  chat_keys self keys st e = (e', Ok st') →
  use_cache st' = false
  ∧ position st' = position st
  ∧ ∃ vs, embeddings st' = embeddings st ++ vs
          ∧ cached e' <$> filter (λ key, embeddable self e key = true) keys
            = Some <$> vs.
Proof.
  revert st e. induction keys as [|key keys IH]; intros st e Huse Hin; simpl.
  - intros ?; simplify_eq. do 2 (split; [done|]). exists []. by rewrite app_nil_r.
  - destruct (chat_segment self key st e) as [e1 [st1|x]] eqn:Hstep; [|done].
    intros Hrest.
    pose proof (chat_segment_extends ImageExtensions replace_text self key st e) as Hext.
    rewrite Hstep in Hext. simpl in Hext.
    pose proof (chat_keys_extends ImageExtensions replace_text self keys st1 e1) as Hext'.
    rewrite Hrest in Hext'. simpl in Hext'.
    assert (∀ k, k ∈ keys → is_Some (dict_get k e)) as Hin'
      by (intros k Hk; apply Hin; by right).
    assert (filter (λ k, embeddable self e1 k = true) keys
            = filter (λ k, embeddable self e k = true) keys) as Hfilter.
    { apply filter_embeddable_ext. intros k Hk. apply extends_embeddable; auto. }
    rewrite filter_cons.
    apply (chat_segment_Ok ImageExtensions replace_text) in Hstep
      as [(Hemb & -> & ->)|(Hemb & raw & role & tpl & open & st0 & _ & _ & _ & Hbranch & ->)].
    + rewrite Hemb. rewrite decide_False by done.
      by apply (IH st e).
    + rewrite Hemb. rewrite decide_True by done.
      rewrite Huse in Hbranch.
      apply (full_segment_Ok ImageExtensions replace_text) in Hbranch
        as (Hpos & _ & Huse0 & v & Hv & Hembs & _).
      destruct (count_user_prompt_fields role key st0) as (Hc1 & Hc2 & Hc3 & _).
      destruct (IH (count_user_prompt role key st0) e1) as (Huse' & Hpos' & vs & Hvs & Hheld).
      { by rewrite Hc3. }
      { eauto using extends_keys. }
      { done. }
      split; [done|]. split; [by rewrite Hpos', Hc2, Hpos|].
      exists (v :: vs). split.
      * rewrite Hvs, Hc1, Hembs. simpl. by rewrite <- app_assoc.
      * rewrite fmap_cons, (cached_extends e1 e' key v) by done.
        rewrite <- Hfilter, Hheld. done.
Qed.

Lemma full_entries self es st es' st' :
  use_cache st = false →
  chat_entries self es st = (es', Ok st') →
  use_cache st' = false
  ∧ position st' = position st
  ∧ ∃ vs, embeddings st' = embeddings st ++ vs
          ∧ held self es es' = Some <$> vs.
Proof.
  revert st es'. induction es as [|e es IH]; intros st es' Huse; simpl.
  - intros ?; simplify_eq. do 2 (split; [done|]). exists []. by rewrite app_nil_r.
  - unfold chat_entry.
    destruct (chat_keys self (dict_keys e) st e) as [e1 [st1|x]] eqn:Hkeys; [|done].
    destruct (chat_entries self es st1) as [es1 out] eqn:Hes.
    intros ?; simplify_eq.
    apply full_keys in Hkeys as (Huse1 & Hpos1 & vs1 & Hvs1 & Hheld1);
      [|done|by intros key ?%dict_get_keys].
    destruct (IH st1 es1 Huse1 Hes) as (Huse' & Hpos' & vs & Hvs & Hheld).
    split; [done|]. split; [congruence|].
    exists (vs1 ++ vs). split.
    + by rewrite Hvs, Hvs1, <- app_assoc.
    + unfold held in *. simpl. unfold segments at 1.
      by rewrite Hheld1, Hheld, fmap_app.
Qed.

(** *** What a pass adds to an entry *)

Lemma chat_segment_grows self key st e e' st' :
  chat_segment self key st e = (e', Ok st') →
  e' = e
  ∨ ∃ raw tpl a,
      cached e key = None
      ∧ is_Some (embedding_functions self !! key)
      ∧ dict_get key e = Some raw
      ∧ embed self raw (Some key) (Some tpl) = Ok a
      ∧ e' = e ++ [(key +:+ "_embedding", VArray a)].
Proof.
  intros [(_ & -> & _)|(Hemb & raw & role & tpl & open & st0 & Hraw & _ & _ & Hbranch & _)]
    %(chat_segment_Ok ImageExtensions replace_text); [by left|].
  apply embeddable_true in Hemb as [Hef _].
  destruct (use_cache st).
  - apply (incremental_segment_Ok ImageExtensions replace_text) in Hbranch
      as (_ & [(a & _ & -> & _)|(Hnone & a & Ha & -> & _)]); [by left|right].
    by exists raw, tpl, a.
  - apply (full_segment_Ok ImageExtensions replace_text) in Hbranch
      as (_ & _ & _ & v & _ & _ & [(_ & ->)|(Hnone & a & _ & Ha & ->)]); [by left|right].
    by exists raw, tpl, a.
Qed.

Lemma stores_fresh_refl self e : stores_fresh self e e.
Proof. intros key v Hnone Hsome. congruence. Qed.

Lemma stores_fresh_step self e0 e key raw tpl a :
  extends e0 e → stores_fresh self e0 e →
  is_Some (dict_get key e0) →
  dict_get key e = Some raw →
  embed self raw (Some key) (Some tpl) = Ok a →
  stores_fresh self e0 (e ++ [(key +:+ "_embedding", VArray a)]).
Proof.
  intros Hext Hfresh [raw0 Hraw0] Hraw Ha key2 v Hnone. unfold cached in *.
  destruct (dict_get (key2 +:+ "_embedding") e) as [w|] eqn:Hw.
  - rewrite (dict_get_app_l _ _ _ _ Hw). intros [= <-]. by apply Hfresh.
  - rewrite dict_get_app_r by done. simpl.
    destruct (String.eqb (key2 +:+ "_embedding") (key +:+ "_embedding")) eqn:E; [|done].
    apply String.eqb_eq, app_inj_suffix in E. subst key2. intros [= <-].
    exists raw, tpl, a. split; [done|]. split; [|done].
    rewrite Hraw0. f_equal. apply Hext in Hraw0. congruence.
Qed.

Lemma fresh_keys self keys st e0 e e' st' :
  extends e0 e → stores_fresh self e0 e →
  (∀ key, key ∈ keys → is_Some (dict_get key e0)) →
  chat_keys self keys st e = (e', Ok st') →
  stores_fresh self e0 e'.
Proof.
  revert st e. induction keys as [|key keys IH]; intros st e Hext Hfresh Hin; simpl.
  - intros ?; by simplify_eq.
  - destruct (chat_segment self key st e) as [e1 [st1|x]] eqn:Hstep; [|done].
    intros Hrest.
    assert (∀ k, k ∈ keys → is_Some (dict_get k e0)) as Hin'
      by (intros k Hk; apply Hin; by right).
    apply chat_segment_grows in Hstep
      as [->|(raw & tpl & a & _ & _ & Hraw & Ha & ->)]; [by apply (IH st1 e)|].
    apply (IH st1 (e ++ [(key +:+ "_embedding", VArray a)])); [| |done..].
    + eapply extends_trans; [done|apply extends_app].
    + eapply stores_fresh_step; eauto. apply Hin. by left.
Qed.

Lemma fresh_entries self es st es' st' :
  chat_entries self es st = (es', Ok st') →
  Forall2 (λ e e', extends e e' ∧ stores_fresh self e e') es es'.
Proof.
  revert st es'. induction es as [|e es IH]; intros st es'; simpl.
  - intros ?; simplify_eq. constructor.
  - unfold chat_entry.
    destruct (chat_keys self (dict_keys e) st e) as [e1 [st1|x]] eqn:Hkeys; [|done].
    destruct (chat_entries self es st1) as [es1 out] eqn:Hes.
    intros ?; simplify_eq. constructor; [|by eapply IH]. split.
    + pose proof (chat_keys_extends ImageExtensions replace_text
                    self (dict_keys e) st e) as Hext.
      by rewrite Hkeys in Hext.
    + eapply fresh_keys; [apply extends_refl|apply stores_fresh_refl| |done].
      by intros key ?%dict_get_keys.
Qed.

(** The outcome of [embed_chat] in terms of its loop. *)
Lemma embed_chat_Ok self use_cache t p :
  (embed_chat self use_cache).2 = Ok (t, p) →
  ∃ st, chat_entries self (entries self) (start_pass use_cache)
        = (entries (embed_chat self use_cache).1, Ok st)
        ∧ np_concatenate (embeddings st) = Ok t
        ∧ position st = p.
Proof.
  unfold embed_chat, chat_loop.
  destruct (chat_entries self (entries self) (start_pass use_cache))
    as [es [st|x]] eqn:Hes; simpl; [|done].
  destruct (np_concatenate (embeddings st)) as [t'|x] eqn:Hcat; simpl; [|done].
  intros [= <- <-]. by exists st.
Qed.

(** C4.  When [embed_chat(use_cache=False)] returns, the position is 0 and
    the embedding is the concatenation, in order, of what the entries hold
    afterwards for every segment of every entry.  An embedding held before
    the call is held unchanged (and emitted all the same); where none was
    held, the one now held was computed by this call. *)
Theorem full_pass_emits_everything self t p :
  (embed_chat self false).2 = Ok (t, p) →
  p = 0
  ∧ (∃ arrays,
       held self (entries self) (entries (embed_chat self false).1)
       = Some <$> (VArray <$> arrays)
       ∧ t = concat arrays)
  ∧ Forall2 (λ e e', extends e e' ∧ stores_fresh self e e')
      (entries self) (entries (embed_chat self false).1).
Proof.
  intros (st & Hes & Hcat & Hpos)%embed_chat_Ok.
  pose proof (fresh_entries _ _ _ _ _ Hes) as Hfresh.
  apply full_entries in Hes as (_ & Hpos0 & vs & Hvs & Hheld); [|done].
  simpl in Hvs, Hpos0. subst vs.
  apply np_concatenate_Ok in Hcat as (_ & arrays & Harr & ->).
  split; [congruence|]. split; [|done].
  exists arrays. by rewrite Hheld, Harr.
Qed.

End PassShape.

(** ** A second pass over an assembled history *)

Section SecondPass.

Context {row : Type}.
Variable ImageExtensions : list string.
Variable replace_text : string → dict row → result (value row).

Implicit Types (self : ChatHistory row) (entry e : dict row) (key : string)
  (keys : list string) (st : pass row) (raw role v : value row)
  (es : list (dict row)).

Local Abbreviation embed := (embed ImageExtensions replace_text).
Local Abbreviation incremental_segment := (incremental_segment ImageExtensions replace_text).
Local Abbreviation full_segment := (full_segment ImageExtensions replace_text).
Local Abbreviation chat_segment := (chat_segment ImageExtensions replace_text).
Local Abbreviation chat_keys := (chat_keys ImageExtensions replace_text).
Local Abbreviation chat_entry := (chat_entry ImageExtensions replace_text).
Local Abbreviation chat_entries := (chat_entries ImageExtensions replace_text).
Local Abbreviation chat_loop := (chat_loop ImageExtensions replace_text).
Local Abbreviation embed_chat := (embed_chat ImageExtensions replace_text).

(** *** The pass reads the history only through its entries *)

Lemma embed_with_entries self es :
  ∀ input type tpl,
    embed (with_entries self es) input type tpl = embed self input type tpl.
Proof.
  fix IH 1. intros input type tpl.
  destruct input as [| s | l | h | items | a]; try reflexivity.
  simpl.
  destruct (match type with Some (String _ _ as t) => Ok t | _ => _ end) as [ty|x];
    simpl; [|done].
  destruct (embedding_functions self !! ty) as [ef|]; [|done].
  destruct (func ef); try reflexivity.
  match goal with
  | |- ?f1 items ≫= _ = ?f2 items ≫= _ =>
      cut (f1 items = f2 items); [by intros ->|]
  end.
  generalize items. fix IHitems 1. intros [|[k v] its]; [done|].
  pose proof (IH v (Some k)) as IHv. pose proof (IHitems its) as IHits.
  destruct v; try done;
    (destruct (embedding_functions self !! k); [|done]; by rewrite IHv, IHits).
Qed.

Lemma incremental_segment_with_entries self es key raw role tpl st e :
  incremental_segment (with_entries self es) key raw role tpl st e
  = incremental_segment self key raw role tpl st e.
Proof. unfold incremental_segment. by rewrite embed_with_entries. Qed.

Lemma full_segment_with_entries self es key raw tpl st e :
  full_segment (with_entries self es) key raw tpl st e
  = full_segment self key raw tpl st e.
Proof. unfold full_segment. by rewrite embed_with_entries. Qed.

Lemma chat_segment_with_entries self es key st e :
  chat_segment (with_entries self es) key st e = chat_segment self key st e.
Proof.
  unfold chat_segment.
  change (embedding_functions (with_entries self es)) with (embedding_functions self).
  change (role_template_of (with_entries self es) st e) with (role_template_of self st e).
  destruct (embedding_functions self !! key); [|done].
  destruct (dict_get key e) as [raw|]; [|done].
  destruct (role_template_of self st e) as [[tpl open]|x];
    destruct (getitem e "role") as [role|y]; try done.
  destruct raw; try done;
    by rewrite incremental_segment_with_entries, full_segment_with_entries.
Qed.

Lemma chat_keys_with_entries self es keys st e :
  chat_keys (with_entries self es) keys st e = chat_keys self keys st e.
Proof.
  revert st e. induction keys as [|key keys IH]; intros st e; simpl; [done|].
  rewrite chat_segment_with_entries.
  destruct (chat_segment self key st e) as [e1 [st1|x]]; [apply IH|done].
Qed.

Lemma chat_entries_with_entries self es l st :
  chat_entries (with_entries self es) l st = chat_entries self l st.
Proof.
  revert st. induction l as [|e l IH]; intros st; simpl; [done|].
  unfold chat_entry. rewrite chat_keys_with_entries.
  destruct (chat_keys self (dict_keys e) st e) as [e1 [st1|x]]; [|done].
  by rewrite IH.
Qed.

(** *** Whether a role template is found *)

Lemma role_template_of_resolves self st e tpl open :
  role_template_of self st e = Ok (tpl, open) →
  ∃ role, getitem e "role" = Ok role
          ∧ resolves self (num_user_prompts st) role = true.
Proof.
  unfold role_template_of, resolves.
  destruct (getitem e "role") as [role|x]; simpl;
    [|by destruct (template self !! "first")].
  intros H. exists role. split; [done|].
  destruct (template_of_role self role) as [[t|]|x]; simpl in *;
    destruct (template self !! "first"); simpl in *;
    try destruct (role_is role "user" && (num_user_prompts st =? 0)%nat);
    try done; by destruct (get_template_name self).
Qed.

Lemma resolves_role_template_of self st e role :
  getitem e "role" = Ok role →
  resolves self (num_user_prompts st) role = true →
  ∃ tpl open, role_template_of self st e = Ok (tpl, open).
Proof.
  unfold role_template_of, resolves. intros ->. simpl.
  destruct (template_of_role self role) as [[t|]|x]; simpl;
    destruct (template self !! "first"); simpl;
    try destruct (role_is role "user" && (num_user_prompts st =? 0)%nat);
    try done; try destruct (open_user_prompt st); eauto.
Qed.

(** *** Steps of a pass in which everything is held already *)

Lemma chat_segment_hit self key st e raw role tpl open a :
  use_cache st = true →
  is_Some (embedding_functions self !! key) →
  dict_get key e = Some raw → raw ≠ VNone →
  getitem e "role" = Ok role →
  role_template_of self st e = Ok (tpl, open) →
  cached e key = Some (VArray a) →
  chat_segment self key st e
  = (e, Ok (count_user_prompt role key
              {| embeddings := embeddings st;
                 position := position st + length a;
                 num_user_prompts := num_user_prompts st;
                 open_user_prompt := open;
                 use_cache := true |})).
Proof.
  intros Huse Hef Hraw Hnone Hrole Htpl Hcached.
  rewrite (chat_segment_processed ImageExtensions replace_text
             _ _ _ _ _ _ _ _ Hef Hraw Hnone Htpl Hrole).
  rewrite Huse. unfold incremental_segment. unfold cached in Hcached.
  simpl. by rewrite Hcached.
Qed.

Lemma chat_keys_app self keys1 keys2 st e :
  chat_keys self (keys1 ++ keys2) st e
  = match chat_keys self keys1 st e with
    | (e1, Ok st1) => chat_keys self keys2 st1 e1
    | (e1, Raise x) => (e1, Raise x)
    end.
Proof.
  revert st e. induction keys1 as [|key keys1 IH]; intros st e; simpl; [done|].
  destruct (chat_segment self key st e) as [e1 [st1|x]]; [apply IH|done].
Qed.

Lemma chat_keys_unregistered self keys st e :
  (∀ key, key ∈ keys → embedding_functions self !! key = None) →
  chat_keys self keys st e = (e, Ok st).
Proof.
  induction keys as [|key keys IH]; intros Hnone; simpl; [done|].
  rewrite (chat_segment_skip ImageExtensions replace_text)
    by (left; apply Hnone; by left).
  apply IH. intros k Hk. apply Hnone. by right.
Qed.

(** The keys a pass adds to an entry are cache keys of registered types. *)
Lemma chat_keys_grows self keys st e e' st' :
  chat_keys self keys st e = (e', Ok st') →
  ∃ added,
    e' = e ++ added
    ∧ Forall (λ kv, ∃ key, kv.1 = key +:+ "_embedding"
                           ∧ is_Some (embedding_functions self !! key)) added.
Proof.
  revert st e. induction keys as [|key keys IH]; intros st e; simpl.
  - intros ?; simplify_eq. exists []. by rewrite app_nil_r.
  - destruct (chat_segment self key st e) as [e1 [st1|x]] eqn:Hstep; [|done].
    intros (added & -> & Hadded)%IH.
    apply (chat_segment_grows ImageExtensions replace_text) in Hstep
      as [->|(raw & tpl & a & _ & Hef & _ & _ & ->)]; [by exists added|].
    exists ((key +:+ "_embedding", VArray a) :: added).
    split; [by rewrite <- app_assoc|]. constructor; [|done]. by exists key.
Qed.

(** *** What a successful pass leaves held *)

Lemma branch_num self key raw role tpl st e e' st' :
  (if use_cache st
   then incremental_segment self key raw role tpl st e
   else full_segment self key raw tpl st e) = (e', Ok st') →
  num_user_prompts st' = num_user_prompts st.
Proof.
  destruct (use_cache st).
  - by intros [? _]%(incremental_segment_Ok ImageExtensions replace_text).
  - by intros (_ & ? & _)%(full_segment_Ok ImageExtensions replace_text).
Qed.

Lemma cached_app_new e key (a : ndarray row) :
  cached e key = None →
  cached (e ++ [(key +:+ "_embedding", VArray a)]) key = Some (VArray a).
Proof.
  unfold cached. intros Hnone. rewrite dict_get_app_r by done.
  simpl. by rewrite String.eqb_refl.
Qed.

Lemma held_step self key st e e1 st1 :
  chat_segment self key st e = (e1, Ok st1) →
  (∃ vs, embeddings st1 = embeddings st ++ vs)
  ∧ (embeddable self e key = true →
     ∃ v, cached e1 key = Some v
          ∧ ((∃ a, v = VArray a) ∨ v ∈ embeddings st1)).
Proof.
  intros [(Hemb & -> & ->)|(Hemb & raw & role & tpl & open & st0 & _ & _ & _ & Hbranch & ->)]
    %(chat_segment_Ok ImageExtensions replace_text).
  - split; [exists []; by rewrite app_nil_r|congruence].
  - destruct (count_user_prompt_fields role key st0) as (-> & _).
    destruct (use_cache st).
    + apply (incremental_segment_Ok ImageExtensions replace_text) in Hbranch
        as (_ & [(a & Ha & -> & -> & _)|(Hnone & a & _ & -> & Hrole)]).
      * split; [exists []; by rewrite app_nil_r|]. intros _. eauto.
      * split.
        -- destruct (role_is role "bot").
           ++ destruct Hrole as (-> & _). exists []. by rewrite app_nil_r.
           ++ destruct Hrole as (-> & _). by eexists.
        -- intros _. exists (VArray a). split; [by apply cached_app_new|eauto].
    + apply (full_segment_Ok ImageExtensions replace_text) in Hbranch
        as (_ & _ & _ & v & Hv & -> & _).
      split; [by eexists|]. intros _. exists v. split; [done|]. right.
      apply elem_of_app. right. by left.
Qed.

Lemma held_keys self keys st e e' st' :
  (∀ key, key ∈ keys → is_Some (dict_get key e)) →
  chat_keys self keys st e = (e', Ok st') →
  (∃ vs, embeddings st' = embeddings st ++ vs)
  ∧ ∀ key, key ∈ keys → embeddable self e key = true →
      ∃ v, cached e' key = Some v
           ∧ ((∃ a, v = VArray a) ∨ v ∈ embeddings st').
Proof.
  revert st e. induction keys as [|key keys IH]; intros st e Hin; simpl.
  - intros ?; simplify_eq. split; [exists []; by rewrite app_nil_r|].
    by intros key ?%elem_of_nil.
  - destruct (chat_segment self key st e) as [e1 [st1|x]] eqn:Hstep; [|done].
    intros Hrest.
    pose proof (chat_segment_extends ImageExtensions replace_text self key st e) as Hext.
    rewrite Hstep in Hext. simpl in Hext.
    pose proof (chat_keys_extends ImageExtensions replace_text self keys st1 e1) as Hext'.
    rewrite Hrest in Hext'. simpl in Hext'.
    apply held_step in Hstep as [[vs0 Hvs0] Hkey].
    destruct (IH st1 e1) as [[vs Hvs] Hkeys]; [|done|].
    { apply (extends_keys e e1 keys Hext). intros k' Hk'. apply Hin. by right. }
    split; [exists (vs0 ++ vs); by rewrite Hvs, Hvs0, <- app_assoc|].
    intros k [->|Hk]%elem_of_cons Hemb.
    + destruct (Hkey Hemb) as (v & Hv & Harr). exists v.
      split; [by eapply cached_extends|].
      destruct Harr as [?|Hin1]; [by left|right].
      rewrite Hvs. apply elem_of_app. by left.
    + apply Hkeys; [done|].
      rewrite (extends_embeddable self e e1); [done..|]. apply Hin. by right.
Qed.

Lemma held_entries self es st es' st' :
  chat_entries self es st = (es', Ok st') →
  (∃ vs, embeddings st' = embeddings st ++ vs)
  ∧ Forall2 (λ e e', ∀ key, key ∈ dict_keys e → embeddable self e key = true →
                     ∃ v, cached e' key = Some v
                          ∧ ((∃ a, v = VArray a) ∨ v ∈ embeddings st'))
      es es'.
Proof.
  revert st es'. induction es as [|e es IH]; intros st es'; simpl.
  - intros ?; simplify_eq. split; [exists []; by rewrite app_nil_r|constructor].
  - unfold chat_entry.
    destruct (chat_keys self (dict_keys e) st e) as [e1 [st1|x]] eqn:Hkeys; [|done].
    destruct (chat_entries self es st1) as [es1 out] eqn:Hes.
    intros ?; simplify_eq.
    apply held_keys in Hkeys as [[vs0 Hvs0] Hhead]; [|by intros key ?%dict_get_keys].
    destruct (IH st1 es1 Hes) as [[vs Hvs] Htail].
    split; [exists (vs0 ++ vs); by rewrite Hvs, Hvs0, <- app_assoc|].
    constructor; [|done].
    intros key Hkey Hemb. destruct (Hhead key Hkey Hemb) as (v & Hv & Harr).
    exists v. split; [done|]. destruct Harr as [?|Hin1]; [by left|right].
    rewrite Hvs. apply elem_of_app. by left.
Qed.

(** *** The second pass *)

Lemma embeddable_false_skip self e key :
  embeddable self e key = false → is_Some (dict_get key e) →
  embedding_functions self !! key = None ∨ dict_get key e = Some VNone.
Proof.
  unfold embeddable. intros Hemb [raw Hraw]. rewrite Hraw in *.
  destruct (embedding_functions self !! key) as [ef|]; [right|by left].
  rewrite bool_decide_eq_true_2 in Hemb by eauto. by destruct raw.
Qed.

Lemma getitem_extends e e' k v :
  extends e e' → getitem e k = Ok v → getitem e' k = Ok v.
Proof.
  unfold getitem. intros Hext. destruct (dict_get k e) as [w|] eqn:Hw; [|done].
  intros [= ->]. by rewrite (Hext _ _ Hw).
Qed.

Lemma second_keys self keys st1 e1 e1' st1' efin st2 :
  chat_keys self keys st1 e1 = (e1', Ok st1') →
  extends e1' efin →
  (∀ key, key ∈ keys → is_Some (dict_get key e1)) →
  (∀ key, key ∈ keys → embeddable self e1 key = true →
          ∃ a, cached efin key = Some (VArray a)) →
  num_user_prompts st2 = num_user_prompts st1 →
  use_cache st2 = true →
  ∃ st2', chat_keys self keys st2 efin = (efin, Ok st2')
          ∧ num_user_prompts st2' = num_user_prompts st1'
          ∧ use_cache st2' = true
          ∧ embeddings st2' = embeddings st2
          ∧ position st2'
            = position st2
              + cached_length efin (filter (λ key, embeddable self e1 key = true) keys).
Proof.
  revert st1 e1 st2. induction keys as [|key keys IH];
    intros st1 e1 st2 Hpass Hfin Hin Hheld Hnum Huse; simpl in Hpass.
  - simplify_eq. exists st2. simpl. repeat split; try done;
      unfold cached_length; simpl; lia.
  - destruct (chat_segment self key st1 e1) as [e1a [st1a|x]] eqn:Hstep; [|done].
    pose proof (chat_segment_extends ImageExtensions replace_text self key st1 e1) as Hext.
    rewrite Hstep in Hext. simpl in Hext.
    pose proof (chat_keys_extends ImageExtensions replace_text self keys st1a e1a) as Hext'.
    rewrite Hpass in Hext'. simpl in Hext'.
    assert (extends e1 efin) as Hext1 by eauto using extends_trans.
    assert (is_Some (dict_get key e1)) as Hkey by (apply Hin; by left).
    assert (∀ k, k ∈ keys → is_Some (dict_get k e1a)) as Hin'.
    { apply (extends_keys e1 e1a keys Hext). intros k' Hk'. apply Hin. by right. }
    assert (filter (λ k, embeddable self e1a k = true) keys
            = filter (λ k, embeddable self e1 k = true) keys) as Hfilter.
    { apply filter_embeddable_ext. intros k Hk. apply extends_embeddable; [done|].
      apply Hin. by right. }
    assert (∀ k, k ∈ keys → embeddable self e1a k = true →
                 ∃ a, cached efin k = Some (VArray a)) as Hheld'.
    { intros k Hk Hemb. apply Hheld; [by right|].
      rewrite <- (extends_embeddable self e1 e1a); [done..|]. apply Hin. by right. }
    rewrite filter_cons.
    apply (chat_segment_Ok ImageExtensions replace_text) in Hstep
      as [(Hemb & -> & ->)
         |(Hemb & raw & role & tpl & open & st0 & Hraw & Hrole & Htpl & Hbranch & ->)].
    + rewrite Hemb, decide_False by done.
      destruct (IH st1 e1 st2 Hpass Hfin Hin' Hheld' Hnum Huse)
        as (st2' & Hpass2 & ?). exists st2'. split; [|done].
      simpl.
      rewrite (chat_segment_skip ImageExtensions replace_text); [done|].
      destruct (embeddable_false_skip _ _ _ Hemb Hkey) as [?|Hnone]; [by left|right].
      by apply Hext1.
    + rewrite Hemb, decide_True by done.
      destruct (Hheld key ltac:(by left) Hemb) as [a Ha].
      pose proof Hemb as Hemb'. apply embeddable_true in Hemb' as [Hef (raw' & Hraw' & Hnone)].
      assert (raw' = raw) as -> by congruence.
      apply role_template_of_resolves in Htpl as (role' & Hrole' & Hres).
      assert (role' = role) as -> by congruence.
      rewrite <- Hnum in Hres.
      destruct (resolves_role_template_of self st2 efin role) as (tpl2 & open2 & Htpl2);
        [by eapply getitem_extends|done|].
      change (use_cache st1) with (use_cache (with_open st1 open)) in Hbranch.
      apply branch_num in Hbranch. simpl in Hbranch.
      set (st2a := count_user_prompt role key
                     {| embeddings := embeddings st2;
                        position := position st2 + length a;
                        num_user_prompts := num_user_prompts st2;
                        open_user_prompt := open2;
                        use_cache := true |}).
      destruct (count_user_prompt_fields role key st0) as (_ & _ & _ & _ & Hn1).
      destruct (count_user_prompt_fields role key
                  {| embeddings := embeddings st2;
                     position := position st2 + length a;
                     num_user_prompts := num_user_prompts st2;
                     open_user_prompt := open2;
                     use_cache := true |}) as (Hc1 & Hc2 & Hc3 & _ & Hc5).
      fold st2a in Hc1, Hc2, Hc3, Hc5. simpl in Hc1, Hc2, Hc3, Hc5.
      destruct (IH (count_user_prompt role key st0) e1a st2a Hpass Hfin Hin' Hheld')
        as (st2' & Hpass2 & Hnum2 & Huse2 & Hembs2 & Hpos2).
      { rewrite Hc5, Hn1. lia. }
      { done. }
      exists st2'. split.
      * simpl.
        rewrite (chat_segment_hit self key st2 efin raw role tpl2 open2 a);
          [done|done|done|by apply Hext1|done|by eapply getitem_extends|done|done].
      * split; [done|]. split; [done|]. split; [congruence|].
        rewrite Hpos2, Hc2, Hfilter. unfold cached_length. simpl. rewrite Ha. lia.
Qed.

Lemma added_keys_unregistered self (added : dict row) :
  cache_keys_unregistered self →
  Forall (λ kv, ∃ key, kv.1 = key +:+ "_embedding"
                       ∧ is_Some (embedding_functions self !! key)) added →
  ∀ key, key ∈ dict_keys added → embedding_functions self !! key = None.
Proof.
  intros Hreg Hadded key ((k & v) & -> & Hkv)%list_elem_of_fmap.
  rewrite Forall_forall in Hadded.
  destruct (Hadded (k, v) Hkv) as (key0 & Hk & Hef). simpl in *. subst k.
  by apply Hreg.
Qed.

Lemma filter_unregistered self e keys :
  (∀ key, key ∈ keys → embedding_functions self !! key = None) →
  filter (λ key, embeddable self e key = true) keys = [].
Proof.
  induction keys as [|key keys IH]; intros Hnone; [done|].
  rewrite filter_cons, decide_False.
  - apply IH. intros k Hk. apply Hnone. by right.
  - unfold embeddable. rewrite (Hnone key) by left.
    rewrite bool_decide_eq_false_2; [done|]. by intros [? ?].
Qed.

Lemma second_entries self es st1 es' st1' st2 :
  cache_keys_unregistered self →
  chat_entries self es st1 = (es', Ok st1') →
  Forall2 (λ e e', ∀ key, key ∈ dict_keys e → embeddable self e key = true →
                     ∃ a, cached e' key = Some (VArray a)) es es' →
  num_user_prompts st2 = num_user_prompts st1 →
  use_cache st2 = true →
  ∃ st2', chat_entries self es' st2 = (es', Ok st2')
          ∧ num_user_prompts st2' = num_user_prompts st1'
          ∧ use_cache st2' = true
          ∧ embeddings st2' = embeddings st2
          ∧ position st2'
            = position st2
              + sum_list_with (λ e', cached_length e' (segments self e')) es'.
Proof.
  intros Hreg. revert st1 es' st2.
  induction es as [|e es IH]; intros st1 es' st2 Hpass Hheld Hnum Huse; simpl in Hpass.
  - simplify_eq. exists st2. simpl. repeat split; try done; lia.
  - unfold chat_entry in Hpass.
    destruct (chat_keys self (dict_keys e) st1 e) as [e1 [st1a|x]] eqn:Hkeys; [|done].
    destruct (chat_entries self es st1a) as [es1 out] eqn:Hes. simplify_eq.
    apply Forall2_cons in Hheld as [Hhead Htail].
    destruct (chat_keys_grows _ _ _ _ _ _ Hkeys) as (added & -> & Hadded).
    pose proof (added_keys_unregistered self added Hreg Hadded) as Hnone.
    destruct (second_keys self (dict_keys e) st1 e (e ++ added) st1a (e ++ added) st2
                Hkeys) as (st2a & Hpass2 & Hnum2 & Huse2 & Hembs2 & Hpos2);
      [apply extends_refl|by intros key ?%dict_get_keys|done..|].
    destruct (IH st1a es1 st2a Hes Htail Hnum2 Huse2)
      as (st2' & Hrest2 & Hnum' & Huse' & Hembs' & Hpos').
    exists st2'. split.
    + simpl. unfold chat_entry, dict_keys. rewrite map_app.
      rewrite chat_keys_app. fold (dict_keys e). rewrite Hpass2.
      rewrite chat_keys_unregistered by done. by rewrite Hrest2.
    + split; [done|]. split; [done|]. split; [congruence|].
      rewrite Hpos', Hpos2. simpl.
      assert (segments self (e ++ added)
              = filter (λ key, embeddable self e key = true) (dict_keys e)) as ->; [|lia].
      unfold segments, dict_keys. rewrite map_app, filter_app.
      rewrite (filter_unregistered self (e ++ added) (map fst added)) by done.
      rewrite app_nil_r. apply filter_embeddable_ext.
      intros key Hkey. apply extends_embeddable; [apply extends_app|].
      by apply dict_get_keys.
Qed.

Lemma embed_chat_history self use_cache :
  (embed_chat self use_cache).1
  = with_entries self (chat_entries self (entries self) (start_pass use_cache)).1.
Proof.
  unfold embed_chat, chat_loop.
  by destruct (chat_entries self (entries self) (start_pass use_cache)).
Qed.

(** C2, as the code has it.  After an [embed_chat()] that returned, the loop
    of a second [embed_chat()] on the same history, with no entry added,
    emits nothing: every segment is a cache hit, the entries stay as they
    are, and the position it reaches is the total length of the embeddings
    the history holds for its segments. *)
Theorem second_pass_emits_nothing self t p :
  cache_keys_unregistered self →
  (embed_chat self true).2 = Ok (t, p) →
  ∃ st, chat_loop (embed_chat self true).1 true = ((embed_chat self true).1, Ok st)
        ∧ embeddings st = []
        ∧ use_cache st = true
        ∧ position st = held_length (embed_chat self true).1.
Proof.
  intros Hreg (st1 & Hes & Hcat & _)%(embed_chat_Ok ImageExtensions replace_text).
  rewrite embed_chat_history in *. rewrite Hes in *. simpl in *.
  destruct (held_entries _ _ _ _ _ Hes) as [[vs Hvs] Hheld].
  apply (np_concatenate_Ok (row := row)) in Hcat as (_ & arrays & Harr & _).
  assert (Forall2 (λ e e', ∀ key, key ∈ dict_keys e → embeddable self e key = true →
                             ∃ a, cached e' key = Some (VArray a))
            (entries self) (chat_entries self (entries self) (start_pass true)).1)
    as Hheld'.
  { rewrite Hes. simpl. eapply Forall2_impl; [exact Hheld|].
    intros e e' He key Hkey Hemb. destruct (He key Hkey Hemb) as (v & Hv & [[a ->]|Hin]).
    - by exists a.
    - rewrite Harr in Hin. apply list_elem_of_fmap in Hin as (a & -> & _). by exists a. }
  rewrite Hes in Hheld'. simpl in Hheld'.
  destruct (second_entries self (entries self) (start_pass true) _ st1 (start_pass true)
              Hreg Hes Hheld' eq_refl eq_refl)
    as (st2 & Hpass2 & _ & Huse2 & Hembs2 & Hpos2).
  exists st2. unfold chat_loop. simpl.
  rewrite chat_entries_with_entries, Hpass2. done.
Qed.

(** The constructor's table has no cache key in it. *)
Lemma builtin_cache_keys_unregistered self :
  embedding_functions self = builtin_embeddings →
  cache_keys_unregistered self.
Proof.
  intros Heq key [ef Hef]. rewrite Heq in *. unfold builtin_embeddings in *.
  rewrite !lookup_insert in Hef.
  repeat case_decide; subst; try done; vm_compute; reflexivity.
Qed.

End SecondPass.


(** ** Dispatch of embeddings *)

Section DispatchFacts.

Context {row : Type}.
Variable ImageExtensions : list string.
Variable replace_text : string → dict row → result (value row).

Implicit Types (self : ChatHistory row) (input v : value row) (key type : string)
  (tpl : option string) (items : list (string * value row)).

Local Abbreviation embed := (embed ImageExtensions replace_text).
Local Abbreviation embed_dict := (embed_dict ImageExtensions replace_text).

Lemma all_arrays_fmap (embs : list (ndarray row)) :
  all_arrays (VArray <$> embs) = Some embs.
Proof.
  induction embs as [|a embs IH]; [done|].
  change (all_arrays (VArray <$> a :: embs))
    with (cons a <$> all_arrays (VArray <$> embs)).
  by rewrite IH.
Qed.

Lemma embed_dict_result_concat (embs : list (ndarray row)) :
  embed_dict_result embs
  = match embs with
    | [] => Raise (ValueError "dict did not contain any entries with valid embedding types")
    | _ => Ok (concat embs)
    end.
Proof.
  destruct embs as [|a [|b embs]]; [done|simpl; by rewrite app_nil_r|].
  unfold embed_dict_result, np_concatenate. by rewrite all_arrays_fmap.
Qed.

(** The loop of [embed_dict] when every item it embeds succeeds. *)
Lemma embed_dict_items self items tpl embs :
  Forall2 (λ kv emb, embed self kv.2 (Some kv.1) tpl = Ok emb)
    (filter (λ kv, item_embeddable self kv = true) items) embs →
  embed_dict self (VDict items) tpl = embed_dict_result embs.
Proof.
  unfold embed_dict. intros Hall.
  match goal with
  | |- ?each items ≫= _ = _ => assert (each items = Ok embs) as ->; [|done]
  end.
  revert embs Hall. induction items as [|[key v] items IH]; intros embs Hall.
  - by apply Forall2_nil_inv_l in Hall as ->.
  - rewrite filter_cons in Hall.
    destruct (item_embeddable self (key, v)) eqn:Hitem.
    + rewrite decide_True in Hall by done.
      apply Forall2_cons_inv_l in Hall as (emb & embs' & Hemb & Hrest & ->).
      simpl in Hemb. unfold item_embeddable in Hitem. simpl in Hitem.
      destruct v; try done;
        (apply bool_decide_eq_true in Hitem as [ef Hef];
         simpl; simpl in Hemb; rewrite Hef, Hemb; simpl; by rewrite (IH embs' Hrest)).
    + rewrite decide_False in Hall by done.
      unfold item_embeddable in Hitem. simpl in Hitem.
      destruct v; try (by apply IH);
        (apply bool_decide_eq_false in Hitem;
         simpl; destruct (embedding_functions self !! key) as [ef|] eqn:Hef;
         [by destruct Hitem|by apply IH]).
Qed.

(** X2.  [embed_dict] embeds the items of the dict in their stored order,
    leaving out None values and keys without an embedding function.  When
    each of these embeddings succeeds, the result is their concatenation
    along the sequence axis (a single one is returned as it is); when there
    is none to embed, the call raises ValueError. *)
Theorem embed_dict_concatenates self items tpl embs :
  Forall2 (λ kv emb, embed self kv.2 (Some kv.1) tpl = Ok emb)
    (filter (λ kv, item_embeddable self kv = true) items) embs →
  embed_dict self (VDict items) tpl
  = match embs with
    | [] => Raise (ValueError "dict did not contain any entries with valid embedding types")
    | _ => Ok (concat embs)
    end.
Proof.
  intros Hall. rewrite (embed_dict_items self items tpl embs Hall).
  apply embed_dict_result_concat.
Qed.

(** X3.  A function registered with [register_embedding] is the one [embed]
    calls for its type; it is handed the template only when it declares more
    than one parameter. *)
Theorem register_then_embed self type n f input tpl :
  type ≠ "" →
  embed (register_embedding self type (external n f)) input (Some type) tpl
  = f input (if (1 <? n)%nat then tpl else None).
Proof.
  intros Hty. destruct type as [|c type]; [done|].
  destruct input; simpl; by rewrite lookup_insert_eq.
Qed.

(** [embed] of a type nobody registered raises ValueError, whatever the
    input is, and calls no embedding function. *)
Lemma embed_unregistered self type input tpl :
  type ≠ "" →
  embedding_functions self !! type = None →
  embed self input (Some type) tpl
  = Raise (ValueError ("type '" +:+ type +:+ "' did not have an embedding registered")).
Proof.
  intros Hty Hnone. destruct type as [|c type]; [done|].
  destruct input; simpl; by rewrite Hnone.
Qed.

End DispatchFacts.

(** ** Construction, entries and reset *)

Section LifecycleFacts.

Context {row : Type}.
Variable ImageExtensions : list string.

Implicit Types (self : ChatHistory row) (entry : dict row) (key : string)
  (input : value row) (kwargs : list (string * value row)) (m : LocalLM row).

Local Abbreviation embedding_type := (@embedding_type row ImageExtensions).
Local Abbreviation create_entry := (@create_entry row ImageExtensions).
Local Abbreviation add_entry := (@add_entry row ImageExtensions).
Local Abbreviation reset := (@reset row ImageExtensions).
Local Abbreviation init := (@init row ImageExtensions).

(** *** Entries *)

Lemma fold_dict_set_other k kwargs (d : dict row) :
  k ∉ kwargs.*1 →
  dict_get k (fold_left (λ d kv, dict_set kv.1 kv.2 d) kwargs d) = dict_get k d.
Proof.
  revert d. induction kwargs as [|[k' v] kwargs IH]; intros d Hk; simpl; [done|].
  rewrite fmap_cons, not_elem_of_cons in Hk. destruct Hk as [Hne Hk]. simpl in Hne.
  rewrite IH by done. by apply dict_get_set_ne.
Qed.

Lemma embedding_type_tags input type :
  embedding_type input = Ok type → type = "image" ∨ type = "text".
Proof.
  unfold embedding_type. destruct input as [| s | l | h | items | a]; try done.
  destruct (PyStr.endswith s ImageExtensions); intros [= <-]; eauto.
Qed.

Lemma create_entry_Ok self role input kwargs entry :
  create_entry self role input kwargs = Ok entry →
  "role" ∉ kwargs.*1 →
  dict_get "role" entry = Some (VStr role)
  ∧ (input = VNone → entry = AttrDict (("role", VStr role) :: kwargs))
  ∧ (input ≠ VNone →
     ∃ type, embedding_type input = Ok type ∧ dict_get type entry = Some input).
Proof.
  intros Hentry Hrole.
  assert (dict_get "role" (AttrDict (("role", VStr role) :: kwargs))
          = Some (VStr (row := row) role)) as Hbase.
  { unfold AttrDict. simpl. by rewrite fold_dict_set_other. }
  unfold create_entry in Hentry.
  destruct (embedding_type input) as [type|x] eqn:Htype.
  - assert (input ≠ VNone →
            entry = dict_set type input (AttrDict (("role", VStr role) :: kwargs)))
      as Hset by (destruct input; simpl in Hentry; by simplify_eq).
    assert (input = VNone ∨ input ≠ VNone) as [->|Hinput]
      by (destruct input; [by left|by right..]).
    + simpl in Hentry; by simplify_eq.
    + rewrite (Hset Hinput). split; [|split; [done|]].
      * rewrite dict_get_set_ne; [done|].
        by destruct (embedding_type_tags _ _ Htype) as [-> | ->].
      * intros _. exists type. by rewrite dict_get_set_eq.
  - destruct input; simpl in Hentry; simplify_eq. done.
Qed.

(** X4.  A successful [add_entry] appends exactly one entry, the one it
    returns, and changes nothing else: the history is one longer and the
    entries it had are where they were.  The new entry carries the role, and
    an input that is not None is stored under its resolved type, replacing a
    keyword argument of the same name.  A failed [add_entry] leaves the
    history as it was. *)
Theorem add_entry_appends self role input kwargs :
  "role" ∉ kwargs.*1 →
  match add_entry self role input kwargs with
  | (self', Ok entry) =>
      self' = with_entries self (entries self ++ [entry])
      ∧ len self' = S (len self)
      ∧ dict_get "role" entry = Some (VStr role)
      ∧ (input ≠ VNone →
         ∃ type, embedding_type input = Ok type ∧ dict_get type entry = Some input)
  | (self', Raise _) => self' = self
  end.
Proof.
  intros Hrole. unfold add_entry.
  destruct (create_entry self role input kwargs) as [entry|x] eqn:Hentry; [|done].
  destruct (create_entry_Ok _ _ _ _ _ Hentry Hrole) as (Hr & _ & Hin).
  split; [done|]. split; [|done].
  unfold len. simpl. rewrite List.length_app. simpl. lia.
Qed.

(** *** Reset *)

Lemma reset_true self prompt :
  template self !! "system_prompt" = Some prompt →
  reset self true = (cleared self [system_entry prompt], Ok tt).
Proof. intros Hp. unfold reset. simpl. by rewrite Hp. Qed.

(** X5.  [reset()] leaves a history whose only entry is the system entry
    carrying the template's system prompt, with no kv cache and the model,
    template and embedding functions untouched; a second [reset()] changes
    nothing more.  When the template has no system prompt it raises
    KeyError, and the entries are gone all the same. *)
Theorem reset_result self :
  match template self !! "system_prompt" with
  | Some prompt =>
      reset self true = (cleared self [system_entry prompt], Ok tt)
      ∧ reset (reset self true).1 true = reset self true
  | None =>
      reset self true = (cleared self [], Raise (KeyError "system_prompt"))
  end.
Proof.
  destruct (template self !! "system_prompt") as [prompt|] eqn:Hp.
  - rewrite (reset_true self prompt Hp). split; [done|].
    exact (reset_true (cleared self [system_entry prompt]) prompt Hp).
  - unfold reset. simpl. by rewrite Hp.
Qed.

(** *** Construction *)

(** X6.  A constructed history has the three built-in embedding functions,
    no kv cache and exactly one entry, the system entry; its system prompt
    is the one given to the constructor when that is a non-empty string. *)
Theorem init_state m t prompt self :
  init m t prompt = Ok self →
  model self = m
  ∧ embedding_functions self = builtin_embeddings
  ∧ kv_cache self = None
  ∧ ∃ p, template self !! "system_prompt" = Some p
         ∧ entries self = [system_entry p]
         ∧ (∀ q, prompt = Some q → q ≠ "" → p = q).
Proof.
  unfold init.
  destruct (if template_missing t then _ else _) as [t'|]; simpl; [|done].
  destruct (match t' with TNone => _ | _ => _ end) as [tpl|]; simpl; [|done].
  set (tpl' := match prompt with Some (String _ _ as p) => _ | _ => tpl end).
  destruct (tpl' !! "system_prompt") as [p|] eqn:Hp; [|done].
  intros [= <-]. simpl.
  do 3 (split; [done|]). exists p. split; [done|]. split; [done|].
  intros q -> Hq. unfold tpl' in Hp. destruct q as [|c q]; [done|].
  rewrite lookup_insert_eq in Hp. by simplify_eq.
Qed.



End LifecycleFacts.

(** ** The two halves of a role template *)

Section TemplateFacts.

Implicit Types (s p t sep : string) (i : nat).

Lemma index_le sep s i : String.index 0 sep s = Some i → (i <= String.length s)%nat.
Proof.
  revert i. induction s as [|c s IH]; intros i Hi.
  - simpl in Hi. destruct sep; simplify_eq. done.
  - change (String.index 0 sep (String c s))
      with (if String.prefix sep (String c s) then Some 0
            else match String.index 0 sep s with
                 | Some n => Some (S n)
                 | None => None
                 end) in Hi.
    destruct (String.prefix sep (String c s)); simplify_eq; [simpl; lia|].
    destruct (String.index 0 sep s) as [n|]; simplify_eq.
    specialize (IH n eq_refl). simpl. lia.
Qed.

Lemma app_inv_head p s1 s2 : p +:+ s1 = p +:+ s2 → s1 = s2.
Proof.
  induction p as [|c p IH]; [done|]. rewrite !app_cons. intros [= H]. by apply IH.
Qed.

Lemma slice_from_index s i :
  (i <= String.length s)%nat →
  PyStr.slice_from (Z.of_nat i) s = String.substring i (String.length s - i) s.
Proof.
  intros Hi. unfold PyStr.slice_from.
  destruct (Z.ltb_spec (Z.of_nat i) 0) as [?|_]; [lia|].
  rewrite Z.min_l by lia. by rewrite Nat2Z.id.
Qed.

Lemma slice_from_not_found s :
  PyStr.slice_from (-1) s = String.substring (String.length s - 1) 1 s.
Proof.
  destruct s as [|c s]; [reflexivity|].
  unfold PyStr.slice_from. change (-1 <? 0)%Z with true. cbv iota.
  set (n := String.length (String c s)).
  assert (n = S (String.length s)) as Hn by done.
  replace (Z.to_nat (Z.max 0 (Z.of_nat n + -1))) with (n - 1)%nat by lia.
  by replace (n - (n - 1))%nat with 1%nat by lia.
Qed.

(** X8.  The part of a role template embedded before an image (line 240) and
    the part used for the text that follows the image (line 279) make up
    the template: the first is what precedes the placeholder, the second
    starts at the placeholder.  A template without placeholder is not split
    that way: all of it goes before the image, and the text after the image
    gets its last character only. *)
Theorem template_halves t :
  if PyStr.contains PyStr.MESSAGE t
  then ∃ rest,
         t = PyStr.split_head PyStr.MESSAGE t +:+ PyStr.MESSAGE +:+ rest
         ∧ PyStr.slice_from (PyStr.find PyStr.MESSAGE t) t = PyStr.MESSAGE +:+ rest
  else PyStr.split_head PyStr.MESSAGE t = t
       ∧ PyStr.slice_from (PyStr.find PyStr.MESSAGE t) t
         = String.substring (String.length t - 1) 1 t.
Proof.
  unfold PyStr.contains, PyStr.split_head, PyStr.find.
  destruct (String.index 0 PyStr.MESSAGE t) as [i|] eqn:Hi.
  - destruct (index_found _ _ _ Hi) as [rest Hrest]. exists rest. split; [done|].
    pose proof (index_le _ _ _ Hi) as Hle.
    rewrite slice_from_index by done.
    pose proof (substring_cut t i Hle) as Hcut.
    rewrite Hrest in Hcut at 1. by apply app_inv_head in Hcut.
  - split; [done|]. apply slice_from_not_found.
Qed.

End TemplateFacts.

(** ** More about the pass *)

Section PassMore.

Context {row : Type}.
Variable ImageExtensions : list string.
Variable replace_text : string → dict row → result (value row).

Implicit Types (self : ChatHistory row) (entry e : dict row) (key : string)
  (keys : list string) (st : pass row) (raw role v img txt : value row)
  (es : list (dict row)).

Local Abbreviation embed := (embed ImageExtensions replace_text).
Local Abbreviation incremental_segment := (incremental_segment ImageExtensions replace_text).
Local Abbreviation full_segment := (full_segment ImageExtensions replace_text).
Local Abbreviation chat_segment := (chat_segment ImageExtensions replace_text).
Local Abbreviation chat_keys := (chat_keys ImageExtensions replace_text).
Local Abbreviation chat_entry := (chat_entry ImageExtensions replace_text).
Local Abbreviation chat_entries := (chat_entries ImageExtensions replace_text).
Local Abbreviation chat_loop := (chat_loop ImageExtensions replace_text).
Local Abbreviation embed_chat := (embed_chat ImageExtensions replace_text).

(** *** Nothing to embed *)

Lemma with_entries_same self : with_entries self (entries self) = self.
Proof. by destruct self. Qed.

Lemma chat_keys_nothing self keys st e :
  (∀ key, key ∈ keys → is_Some (dict_get key e)) →
  filter (λ key, embeddable self e key = true) keys = [] →
  chat_keys self keys st e = (e, Ok st).
Proof.
  induction keys as [|key keys IH]; intros Hin Hnone; simpl; [done|].
  rewrite filter_cons in Hnone.
  destruct (embeddable self e key) eqn:Hemb; [by rewrite decide_True in Hnone|].
  rewrite decide_False in Hnone by done.
  rewrite (chat_segment_skip ImageExtensions replace_text).
  - apply IH; [|done]. intros k Hk. apply Hin. by right.
  - apply embeddable_false_skip; [done|]. apply Hin. by left.
Qed.

Lemma chat_entries_nothing self es st :
  Forall (λ e, segments self e = []) es →
  chat_entries self es st = (es, Ok st).
Proof.
  induction es as [|e es IH]; intros Hnone; simpl; [done|].
  apply Forall_cons in Hnone as [He Hes]. unfold chat_entry.
  rewrite chat_keys_nothing; [|by intros key ?%dict_get_keys|done].
  by rewrite IH.
Qed.

(** X9.  When no entry of the history has anything to embed (an empty
    history, or entries holding only a role, None values or keys without an
    embedding function), [embed_chat] raises the ValueError of
    [np.concatenate] on an empty list, in either mode, and leaves the
    history as it was. *)
Theorem embed_chat_nothing_to_embed self (use_cache : bool) :
  Forall (λ e, segments self e = []) (entries self) →
  embed_chat self use_cache
  = (self, Raise (ValueError "need at least one array to concatenate")).
Proof.
  intros Hnone. unfold embed_chat, chat_loop.
  rewrite (chat_entries_nothing self (entries self) _ Hnone).
  by rewrite with_entries_same.
Qed.

(** *** What a pass does to the history, whatever its outcome *)

Lemma chat_segment_adds self key st e e' (r : result (pass row)) :
  chat_segment self key st e = (e', r) →
  e' = e ∨ ∃ a, e' = e ++ [(key +:+ "_embedding", VArray a)]
                ∧ is_Some (embedding_functions self !! key).
Proof.
  unfold chat_segment.
  destruct (embedding_functions self !! key) as [ef|] eqn:Hef;
    [|intros ?; simplify_eq; by left].
  destruct (dict_get key e) as [raw|]; [|intros ?; simplify_eq; by left].
  destruct (role_template_of self st e) as [[tpl open]|x];
    destruct (getitem e "role") as [role|y];
    try (destruct raw; intros ?; simplify_eq; by left).
  set (st0 := Build_pass _ _ _ _ _ _).
  assert (∀ step : dict row * result (pass row),
            (step.1 = e ∨ ∃ a, step.1 = e ++ [(key +:+ "_embedding", VArray a)]) →
            (let '(entry, outcome) := step in
             (entry, count_user_prompt role key <$> outcome)) = (e', r) →
            e' = e ∨ ∃ a, e' = e ++ [(key +:+ "_embedding", VArray a)]
                          ∧ is_Some (Some ef)) as Hstep.
  { intros [e1 out] Hcase ?; simplify_eq. simpl in Hcase.
    destruct Hcase as [?|[a ?]]; [by left|right]. exists a. eauto. }
  assert ((if use_cache st0
           then incremental_segment self key raw role tpl st0 e
           else full_segment self key raw tpl st0 e).1 = e
          ∨ ∃ a, (if use_cache st0
                  then incremental_segment self key raw role tpl st0 e
                  else full_segment self key raw tpl st0 e).1
                 = e ++ [(key +:+ "_embedding", VArray a)]) as Hbranch.
  { unfold incremental_segment, full_segment.
    destruct (use_cache st0);
      (destruct (dict_get (key +:+ "_embedding") e) eqn:Hc; [by left|]);
      (destruct (embed self raw (Some key) (Some tpl)) as [a|x]; [|by left]).
    - right. exists a. rewrite <- (dict_set_absent _ (VArray a) _ Hc).
      by destruct (negb (role_is role "bot")).
    - right. exists a. by rewrite <- (dict_set_absent _ (VArray a) _ Hc). }
  destruct raw; try (intros ?; simplify_eq; by left); by apply Hstep.
Qed.

Lemma chat_keys_adds self keys st e e' (r : result (pass row)) :
  chat_keys self keys st e = (e', r) →
  ∃ added, e' = e ++ added ∧ Forall (cache_item self) added.
Proof.
  revert st e. induction keys as [|key keys IH]; intros st e; simpl.
  - intros ?; simplify_eq. exists []. by rewrite app_nil_r.
  - destruct (chat_segment self key st e) as [e1 [st1|x]] eqn:Hstep.
    + intros (added & -> & Hadded)%IH.
      apply chat_segment_adds in Hstep as [->|(a & -> & Hef)]; [by exists added|].
      exists ((key +:+ "_embedding", VArray a) :: added).
      split; [by rewrite <- app_assoc|]. constructor; [|done]. by exists key, a.
    + intros ?; simplify_eq.
      apply chat_segment_adds in Hstep as [->|(a & -> & Hef)].
      * exists []. by rewrite app_nil_r.
      * exists [(key +:+ "_embedding", VArray a)]. split; [done|].
        constructor; [|done]. by exists key, a.
Qed.

Lemma chat_entries_adds self es st :
  Forall2 (λ e e', ∃ added, e' = e ++ added ∧ Forall (cache_item self) added)
    es (chat_entries self es st).1.
Proof.
  revert st. induction es as [|e es IH]; intros st; simpl; [constructor|].
  unfold chat_entry.
  destruct (chat_keys self (dict_keys e) st e) as [e1 [st1|x]] eqn:Hkeys.
  - specialize (IH st1). destruct (chat_entries self es st1). simpl in *.
    constructor; [|done]. by eapply chat_keys_adds.
  - simpl. constructor; [by eapply chat_keys_adds|].
    apply Forall2_same_length_lookup_2; [done|].
    intros i e2 e3 H2 H3. simplify_eq. exists []. by rewrite app_nil_r.
Qed.

(** X10.  Whatever its outcome, [embed_chat] changes the history only by
    appending to entries the embeddings of their segments, under the cache
    keys of registered types: the model, the template, the embedding
    functions and the kv cache stay as they are, no entry is added, removed
    or moved, and every entry keeps its items, in their order, in front of
    what was appended. *)
Theorem embed_chat_only_appends self (use_cache : bool) :
  ∃ es', (embed_chat self use_cache).1 = with_entries self es'
         ∧ Forall2 (λ e e', ∃ added, e' = e ++ added
                                     ∧ Forall (cache_item self) added)
             (entries self) es'.
Proof.
  exists (chat_entries self (entries self) (start_pass use_cache)).1.
  split; [|apply chat_entries_adds].
  unfold embed_chat, chat_loop.
  by destruct (chat_entries self (entries self) (start_pass use_cache)).
Qed.

End PassMore.

(** ** Assembling again *)

Section Replay.

Context {row : Type}.
Variable ImageExtensions : list string.
Variable replace_text : string → dict row → result (value row).

Implicit Types (self : ChatHistory row) (entry e : dict row) (key : string)
  (keys : list string) (st : pass row) (raw role v : value row)
  (es : list (dict row)).

Local Abbreviation embed := (embed ImageExtensions replace_text).
Local Abbreviation incremental_segment := (incremental_segment ImageExtensions replace_text).
Local Abbreviation full_segment := (full_segment ImageExtensions replace_text).
Local Abbreviation chat_segment := (chat_segment ImageExtensions replace_text).
Local Abbreviation chat_keys := (chat_keys ImageExtensions replace_text).
Local Abbreviation chat_entry := (chat_entry ImageExtensions replace_text).
Local Abbreviation chat_entries := (chat_entries ImageExtensions replace_text).
Local Abbreviation chat_loop := (chat_loop ImageExtensions replace_text).
Local Abbreviation embed_chat := (embed_chat ImageExtensions replace_text).

(** After a call that returned, every segment holds an array. *)
Lemma pass_leaves_arrays self (use_cache : bool) es' st1 t :
  chat_entries self (entries self) (start_pass use_cache) = (es', Ok st1) →
  np_concatenate (embeddings st1) = Ok t →
  Forall2 (λ e e', ∀ key, key ∈ dict_keys e → embeddable self e key = true →
                     ∃ a, cached e' key = Some (VArray a))
    (entries self) es'.
Proof.
  intros Hes Hcat.
  destruct (held_entries ImageExtensions replace_text _ _ _ _ _ Hes) as [_ Hheld].
  apply (np_concatenate_Ok (row := row)) in Hcat as (_ & arrays & Harr & _).
  eapply Forall2_impl; [exact Hheld|].
  intros e e' He key Hkey Hemb. destruct (He key Hkey Hemb) as (v & Hv & [[a ->]|Hin]).
  - by exists a.
  - rewrite Harr in Hin. apply list_elem_of_fmap in Hin as (a & -> & _). by exists a.
Qed.

(** The loop of a second [embed_chat()] right after one that returned. *)
Lemma second_loop self t p :
  cache_keys_unregistered self →
  (embed_chat self true).2 = Ok (t, p) →
  ∃ st, chat_loop (embed_chat self true).1 true = ((embed_chat self true).1, Ok st)
        ∧ embeddings st = []
        ∧ use_cache st = true
        ∧ position st = held_length (embed_chat self true).1.
Proof.
  intros Hreg (st1 & Hes & Hcat & _)%(embed_chat_Ok ImageExtensions replace_text).
  rewrite (embed_chat_history ImageExtensions replace_text) in *.
  pose proof (pass_leaves_arrays self true _ st1 t Hes Hcat) as Hheld.
  rewrite Hes in *. simpl in *.
  destruct (second_entries ImageExtensions replace_text
              self (entries self) (start_pass true) _ st1 (start_pass true)
              Hreg Hes Hheld eq_refl eq_refl)
    as (st2 & Hpass2 & _ & Huse2 & Hembs2 & Hpos2).
  exists st2. unfold chat_loop. simpl.
  rewrite (chat_entries_with_entries ImageExtensions replace_text), Hpass2. done.
Qed.

(** X11.  Calling [embed_chat()] a second time, with no entry added after a
    call that returned, raises ValueError: every segment is a cache hit,
    nothing is emitted, and [np.concatenate] refuses the empty list.  The
    history is left as the first call left it. *)
Theorem second_embed_chat_raises self t p :
  cache_keys_unregistered self →
  (embed_chat self true).2 = Ok (t, p) →
  embed_chat (embed_chat self true).1 true
  = ((embed_chat self true).1,
     Raise (ValueError "need at least one array to concatenate")).
Proof.
  intros Hreg Hfirst.
  destruct (second_loop self t p Hreg Hfirst) as (st & Hloop & Hembs & _).
  unfold embed_chat at 1. rewrite Hloop. simpl. by rewrite Hembs.
Qed.

(** *** A full pass over a history in which everything is held *)

Lemma chat_segment_held_full self key st e raw role tpl open v :
  use_cache st = false →
  is_Some (embedding_functions self !! key) →
  dict_get key e = Some raw → raw ≠ VNone →
  getitem e "role" = Ok role →
  role_template_of self st e = Ok (tpl, open) →
  cached e key = Some v →
  chat_segment self key st e
  = (e, Ok (count_user_prompt role key
              {| embeddings := embeddings st ++ [v];
                 position := position st;
                 num_user_prompts := num_user_prompts st;
                 open_user_prompt := open;
                 use_cache := false |})).
Proof.
  intros Huse Hef Hraw Hnone Hrole Htpl Hcached.
  rewrite (chat_segment_processed ImageExtensions replace_text
             _ _ _ _ _ _ _ _ Hef Hraw Hnone Htpl Hrole).
  rewrite Huse. unfold full_segment. unfold cached in Hcached.
  simpl. by rewrite Hcached.
Qed.

Lemma replay_keys_full self keys st1 e1 e1' st1' efin st2 :
  chat_keys self keys st1 e1 = (e1', Ok st1') →
  extends e1' efin →
  (∀ key, key ∈ keys → is_Some (dict_get key e1)) →
  (∀ key, key ∈ keys → embeddable self e1 key = true → is_Some (cached efin key)) →
  num_user_prompts st2 = num_user_prompts st1 →
  use_cache st2 = false →
  ∃ st2', chat_keys self keys st2 efin = (efin, Ok st2')
          ∧ num_user_prompts st2' = num_user_prompts st1'.
Proof.
  revert st1 e1 st2. induction keys as [|key keys IH];
    intros st1 e1 st2 Hpass Hfin Hin Hheld Hnum Huse; simpl in Hpass.
  - simplify_eq. by exists st2.
  - destruct (chat_segment self key st1 e1) as [e1a [st1a|x]] eqn:Hstep; [|done].
    pose proof (chat_segment_extends ImageExtensions replace_text self key st1 e1) as Hext.
    rewrite Hstep in Hext. simpl in Hext.
    pose proof (chat_keys_extends ImageExtensions replace_text self keys st1a e1a) as Hext'.
    rewrite Hpass in Hext'. simpl in Hext'.
    assert (extends e1 efin) as Hext1 by eauto using extends_trans.
    assert (is_Some (dict_get key e1)) as Hkey by (apply Hin; by left).
    assert (∀ k, k ∈ keys → is_Some (dict_get k e1a)) as Hin'.
    { apply (extends_keys e1 e1a keys Hext). intros k' Hk'. apply Hin. by right. }
    assert (∀ k, k ∈ keys → embeddable self e1a k = true →
                 is_Some (cached efin k)) as Hheld'.
    { intros k Hk Hemb. apply Hheld; [by right|].
      rewrite <- (extends_embeddable self e1 e1a); [done..|]. apply Hin. by right. }
    apply (chat_segment_Ok ImageExtensions replace_text) in Hstep
      as [(Hemb & -> & ->)
         |(Hemb & raw & role & tpl & open & st0 & Hraw & Hrole & Htpl & Hbranch & ->)].
    + destruct (IH st1 e1 st2 Hpass Hfin Hin' Hheld' Hnum Huse) as (st2' & Hpass2 & ?).
      exists st2'. split; [|done]. simpl.
      rewrite (chat_segment_skip ImageExtensions replace_text); [done|].
      destruct (embeddable_false_skip _ _ _ Hemb Hkey) as [?|Hnone]; [by left|right].
      by apply Hext1.
    + destruct (Hheld key ltac:(by left) Hemb) as [v Hv].
      pose proof Hemb as Hemb'.
      apply embeddable_true in Hemb' as [Hef (raw' & Hraw' & Hnone)].
      assert (raw' = raw) as -> by congruence.
      apply role_template_of_resolves in Htpl as (role' & Hrole' & Hres).
      assert (role' = role) as -> by congruence.
      rewrite <- Hnum in Hres.
      destruct (resolves_role_template_of self st2 efin role) as (tpl2 & open2 & Htpl2);
        [by eapply getitem_extends|done|].
      change (use_cache st1) with (use_cache (with_open st1 open)) in Hbranch.
      apply (branch_num ImageExtensions replace_text) in Hbranch. simpl in Hbranch.
      set (st2a := count_user_prompt role key
                     {| embeddings := embeddings st2 ++ [v];
                        position := position st2;
                        num_user_prompts := num_user_prompts st2;
                        open_user_prompt := open2;
                        use_cache := false |}).
      destruct (count_user_prompt_fields role key st0) as (_ & _ & _ & _ & Hn1).
      destruct (count_user_prompt_fields role key
                  {| embeddings := embeddings st2 ++ [v];
                     position := position st2;
                     num_user_prompts := num_user_prompts st2;
                     open_user_prompt := open2;
                     use_cache := false |}) as (_ & _ & Hc3 & _ & Hc5).
      fold st2a in Hc3, Hc5. simpl in Hc3, Hc5.
      destruct (IH (count_user_prompt role key st0) e1a st2a Hpass Hfin Hin' Hheld')
        as (st2' & Hpass2 & Hnum2).
      { rewrite Hc5, Hn1. lia. }
      { done. }
      exists st2'. split; [|done]. simpl.
      rewrite (chat_segment_held_full self key st2 efin raw role tpl2 open2 v);
        [done|done|done|by apply Hext1|done|by eapply getitem_extends|done|done].
Qed.

Lemma cache_items_unregistered self (added : dict row) :
  cache_keys_unregistered self →
  Forall (cache_item self) added →
  ∀ key, key ∈ dict_keys added → embedding_functions self !! key = None.
Proof.
  intros Hreg Hadded key ((k & v) & -> & Hkv)%list_elem_of_fmap.
  rewrite Forall_forall in Hadded.
  destruct (Hadded (k, v) Hkv) as (key0 & a & [= -> ->] & Hef). by apply Hreg.
Qed.

(** The cache items a pass appends are no segments. *)
Lemma segments_grown self e (added : dict row) :
  cache_keys_unregistered self →
  Forall (cache_item self) added →
  segments self (e ++ added) = segments self e.
Proof.
  intros Hreg Hadded. unfold segments, dict_keys. rewrite map_app, filter_app.
  rewrite (filter_unregistered self (e ++ added) (map fst added))
    by (by apply cache_items_unregistered).
  rewrite app_nil_r. apply filter_embeddable_ext.
  intros key Hkey. apply extends_embeddable; [apply extends_app|].
  by apply dict_get_keys.
Qed.

Lemma replay_entries_full self es st1 es' st1' st2 :
  cache_keys_unregistered self →
  chat_entries self es st1 = (es', Ok st1') →
  Forall2 (λ e e', ∀ key, key ∈ dict_keys e → embeddable self e key = true →
                     is_Some (cached e' key)) es es' →
  num_user_prompts st2 = num_user_prompts st1 →
  use_cache st2 = false →
  ∃ st2', chat_entries self es' st2 = (es', Ok st2')
          ∧ num_user_prompts st2' = num_user_prompts st1'.
Proof.
  intros Hreg. revert st1 es' st2.
  induction es as [|e es IH]; intros st1 es' st2 Hpass Hheld Hnum Huse; simpl in Hpass.
  - simplify_eq. by exists st2.
  - unfold chat_entry in Hpass.
    destruct (chat_keys self (dict_keys e) st1 e) as [e1 [st1a|x]] eqn:Hkeys; [|done].
    destruct (chat_entries self es st1a) as [es1 out] eqn:Hes. simplify_eq.
    apply Forall2_cons in Hheld as [Hhead Htail].
    destruct (chat_keys_adds ImageExtensions replace_text _ _ _ _ _ _ Hkeys)
      as (added & -> & Hadded).
    pose proof (cache_items_unregistered self added Hreg Hadded) as Hnone.
    destruct (replay_keys_full self (dict_keys e) st1 e (e ++ added) st1a (e ++ added) st2
                Hkeys) as (st2a & Hpass2 & Hnum2);
      [apply extends_refl|by intros key ?%dict_get_keys|done..|].
    assert (use_cache st2a = false) as Huse2.
    { apply (full_keys ImageExtensions replace_text) in Hpass2 as [? _]; [done..|].
      intros key Hkey%dict_get_keys. destruct Hkey as [w Hw].
      rewrite (dict_get_app_l _ _ _ _ Hw). eauto. }
    destruct (IH st1a es1 st2a Hes Htail Hnum2 Huse2) as (st2' & Hrest2 & Hnum').
    exists st2'. split; [|done].
    simpl. unfold chat_entry, dict_keys. rewrite map_app.
    rewrite (chat_keys_app ImageExtensions replace_text). fold (dict_keys e).
    rewrite Hpass2.
    rewrite (chat_keys_unregistered ImageExtensions replace_text) by done.
    by rewrite Hrest2.
Qed.

Lemma fmap_Some_inj {A} (l1 l2 : list A) : Some <$> l1 = Some <$> l2 → l1 = l2.
Proof.
  revert l2. induction l1 as [|x l1 IH]; intros [|y l2]; try done.
  rewrite !fmap_cons. intros [= -> H]. by rewrite (IH l2 H).
Qed.

Lemma held_grown self es es' :
  cache_keys_unregistered self →
  Forall2 (λ e e', ∃ added, e' = e ++ added ∧ Forall (cache_item self) added) es es' →
  held self es' es' = held self es es'.
Proof.
  intros Hreg Hall. unfold held. f_equal.
  induction Hall as [|e e' es es' (added & -> & Hadded) _ IH]; [done|].
  simpl. by rewrite segments_grown, IH.
Qed.

Lemma held_nil self es es' :
  length es = length es' → held self es es' = [] →
  Forall (λ e, segments self e = []) es.
Proof.
  unfold held. revert es'. induction es as [|e es IH]; intros [|e' es'] Hlen; try done.
  simpl. intros [Hhead Htail]%app_eq_nil. constructor.
  - by apply fmap_nil_inv in Hhead.
  - apply (IH es'); [by simplify_eq/=|done].
Qed.

(** X12.  [embed_chat(use_cache=False)] after a call that returned (in either
    mode) returns, at position 0, the concatenation of every embedding the
    history holds for its segments, computes nothing anew and leaves the
    history as it is.  After a call that was itself made with
    [use_cache=False], it returns the same embedding again. *)
Theorem full_pass_after_pass self (use_cache : bool) t p :
  cache_keys_unregistered self →
  (embed_chat self use_cache).2 = Ok (t, p) →
  ∃ arrays,
    embed_chat (embed_chat self use_cache).1 false
    = ((embed_chat self use_cache).1, Ok (concat arrays, 0))
    ∧ held self (entries (embed_chat self use_cache).1)
        (entries (embed_chat self use_cache).1)
      = Some <$> (VArray <$> arrays)
    ∧ (use_cache = false → concat arrays = t).
Proof.
  intros Hreg (st1 & Hes0 & Hcat & _)%(embed_chat_Ok ImageExtensions replace_text).
  rewrite (embed_chat_history ImageExtensions replace_text) in *.
  pose proof (chat_entries_adds ImageExtensions replace_text
                self (entries self) (start_pass use_cache)) as Hadds.
  destruct (chat_entries self (entries self) (start_pass use_cache))
    as [es' out] eqn:Hes.
  simpl in Hes0, Hadds |- *. injection Hes0 as ->.
  pose proof (pass_leaves_arrays self use_cache _ st1 t Hes Hcat) as Harrays.
  destruct (replay_entries_full self (entries self) (start_pass use_cache) es' st1
              (start_pass false) Hreg Hes) as (st2 & Hpass2 & _); [|done..|].
  { eapply Forall2_impl; [exact Harrays|].
    intros e e' He key Hkey Hemb. destruct (He key Hkey Hemb) as [a ->]. eauto. }
  destruct (full_entries ImageExtensions replace_text self es' (start_pass false)
              es' st2 eq_refl Hpass2) as (_ & Hpos2 & vs2 & Hvs2 & Hheld2).
  simpl in Hvs2, Hpos2.
  pose proof (held_grown self (entries self) es' Hreg Hadds) as Hgrown.
  assert (∃ arrays, vs2 = VArray <$> arrays) as [arrays ->].
  { clear Hpass2 Hvs2. rewrite Hgrown in Hheld2. clear Hgrown Hadds Hes.
    revert vs2 Hheld2. unfold held.
    induction Harrays as [|e e' es0 es0' He _ IH]; intros vs2 Hheld2.
    - simpl in Hheld2. symmetry in Hheld2. apply fmap_nil_inv in Hheld2 as ->.
      by exists [].
    - simpl in Hheld2.
      assert (∃ arrs, cached e' <$> segments self e = Some <$> (VArray <$> arrs))
        as [arrs Harrs].
      { unfold segments.
        assert (∀ key, key ∈ filter (λ key, embeddable self e key = true) (dict_keys e) →
                       ∃ a, cached e' key = Some (VArray a)) as Hseg.
        { intros key [Hemb Hkey]%list_elem_of_filter. by apply He. }
        revert Hseg. generalize (filter (λ key, embeddable self e key = true) (dict_keys e)).
        intros ks. induction ks as [|k ks IHks]; intros Hseg; [by exists []|].
        destruct (Hseg k ltac:(by left)) as [a Ha].
        destruct IHks as [arrs Harrs]; [intros key Hkey; apply Hseg; by right|].
        exists (a :: arrs). by rewrite !fmap_cons, Ha, Harrs. }
      rewrite Harrs in Hheld2.
      assert (∃ vsa vsb, vs2 = vsa ++ vsb
                         ∧ Some <$> vsa = Some <$> (VArray <$> arrs)
                         ∧ Some <$> vsb
                           = concat (zip_with (λ e e', cached e' <$> segments self e)
                                       es0 es0')) as (vsa & vsb & -> & Ha & Hb).
      { exists (take (length arrs) vs2), (drop (length arrs) vs2).
        split; [by rewrite take_drop|].
        rewrite fmap_take, fmap_drop, <- Hheld2.
        rewrite take_app_length', drop_app_length'; rewrite ?length_fmap; done. }
      apply fmap_Some_inj in Ha as ->. symmetry in Hb.
      destruct (IH vsb Hb) as [arrs' ->].
      exists (arrs ++ arrs'). by rewrite fmap_app. }
  assert (arrays ≠ []) as Hne.
  { intros ->. simpl in Hheld2. rewrite Hgrown in Hheld2.
    apply held_nil in Hheld2; [|by eapply Forall2_length].
    rewrite (chat_entries_nothing ImageExtensions replace_text _ _ _ Hheld2) in Hes.
    simplify_eq. }
  exists arrays. split; [|split].
  - unfold embed_chat, chat_loop. simpl.
    rewrite (chat_entries_with_entries ImageExtensions replace_text), Hpass2. simpl.
    rewrite Hvs2, Hpos2. unfold np_concatenate.
    rewrite (all_arrays_fmap arrays). by destruct arrays.
  - done.
  - intros ->.
    destruct (full_entries ImageExtensions replace_text self (entries self)
                (start_pass false) es' st1 eq_refl Hes) as (_ & _ & vs1 & Hvs1 & Hheld1).
    simpl in Hvs1. rewrite Hgrown, Hheld1 in Hheld2. apply fmap_Some_inj in Hheld2.
    rewrite Hvs1, Hheld2 in Hcat. unfold np_concatenate in Hcat.
    rewrite (all_arrays_fmap arrays) in Hcat. destruct arrays; [done|]. simpl in Hcat. by simplify_eq.
Qed.

(** *** An incremental pass over a history that has grown *)

Lemma chat_entries_app self es1 es2 st :
  chat_entries self (es1 ++ es2) st
  = match chat_entries self es1 st with
    | (es1', Ok st1) =>
        let '(es2', r) := chat_entries self es2 st1 in (es1' ++ es2', r)
    | (es1', Raise x) => (es1' ++ es2, Raise x)
    end.
Proof.
  revert st. induction es1 as [|e es1 IH]; intros st; simpl.
  - by destruct (chat_entries self es2 st).
  - destruct (chat_entry self st e) as [e1 [st1|x]]; [|done].
    rewrite IH. destruct (chat_entries self es1 st1) as [es1' [st1'|x]]; [|done].
    by destruct (chat_entries self es2 st1').
Qed.

Lemma role_template_of_closed self st e tpl open :
  role_template_of self st e = Ok (tpl, open) →
  open_user_prompt st = false → open = false.
Proof.
  unfold role_template_of. intros H Hopen. rewrite Hopen in H.
  destruct (getitem e "role") as [role|x]; simpl in H;
    [|by destruct (template self !! "first")].
  destruct (template_of_role self role) as [[t|]|x]; simpl in H;
    destruct (template self !! "first"); simpl in H;
    try destruct (role_is role "user" && (num_user_prompts st =? 0)%nat);
    simplify_eq; try done; by destruct (get_template_name self).
Qed.

(** While [use_cache] stays true no image is emitted, so the user prompt
    stays closed. *)
Lemma cached_segment_closed self key st e e' st' :
  chat_segment self key st e = (e', Ok st') → use_cache st' = true →
  use_cache st = true
  ∧ (open_user_prompt st = false → open_user_prompt st' = false).
Proof.
  intros [(_ & -> & ->)
         |(_ & raw & role & tpl & open & st0 & _ & _ & Htpl & Hbranch & ->)]%
    (chat_segment_Ok ImageExtensions replace_text) Huse; [done|].
  destruct (count_user_prompt_fields role key st0) as (_ & _ & Hu & Ho & _).
  rewrite Hu in Huse. rewrite Ho.
  destruct (use_cache st) eqn:Hst.
  - split; [done|]. intros Hopen.
    apply role_template_of_closed in Htpl; [|done]. subst open.
    unfold incremental_segment, with_open in Hbranch. simpl in Hbranch.
    destruct (dict_get (key +:+ "_embedding") e) as [c|].
    + destruct (shape1 c); by simplify_eq/=.
    + destruct (embed self raw (Some key) (Some tpl)); [|done].
      destruct (negb (role_is role "bot")); by simplify_eq/=.
  - apply (full_segment_Ok ImageExtensions replace_text) in Hbranch as (_ & _ & Hf & _).
    congruence.
Qed.

Lemma cached_keys_closed self keys st e e' st' :
  chat_keys self keys st e = (e', Ok st') → use_cache st' = true →
  use_cache st = true
  ∧ (open_user_prompt st = false → open_user_prompt st' = false).
Proof.
  revert st e. induction keys as [|key keys IH]; intros st e Hpass Huse;
    simpl in Hpass; [by simplify_eq|].
  destruct (chat_segment self key st e) as [e1 [st1|x]] eqn:Hstep; [|done].
  destruct (IH _ _ Hpass Huse) as [Hu Ho].
  destruct (cached_segment_closed _ _ _ _ _ _ Hstep Hu) as [Hu' Ho'].
  split; [done|]. intros Hopen. by apply Ho, Ho'.
Qed.

Lemma cached_entries_closed self es st es' st' :
  chat_entries self es st = (es', Ok st') → use_cache st' = true →
  use_cache st = true
  ∧ (open_user_prompt st = false → open_user_prompt st' = false).
Proof.
  revert st es'. induction es as [|e es IH]; intros st es' Hpass Huse;
    simpl in Hpass; [by simplify_eq|].
  unfold chat_entry in Hpass.
  destruct (chat_keys self (dict_keys e) st e) as [e1 [st1|x]] eqn:Hkeys; [|done].
  destruct (chat_entries self es st1) as [es1 [st1'|x]] eqn:Hes; [|done].
  simplify_eq.
  destruct (IH _ _ Hes Huse) as [Hu Ho].
  destruct (cached_keys_closed _ _ _ _ _ _ Hkeys Hu) as [Hu' Ho'].
  split; [done|]. intros Hopen. by apply Ho, Ho'.
Qed.

(** The call after entries were added, in terms of a pass over the
    entries added. *)
Lemma resume_pass self self1 st1 t new :
  cache_keys_unregistered self →
  chat_loop self true = (self1, Ok st1) →
  np_concatenate (embeddings st1) = Ok t →
  embed_chat (with_entries self1 (entries self1 ++ new)) true
  = let '(new', outcome) :=
      chat_entries self1 new (resumed (held_length self1) (num_user_prompts st1)) in
    (with_entries self1 (entries self1 ++ new'),
     st ← outcome;
     embedding ← np_concatenate (embeddings st);
     Ok (embedding, position st)).
Proof.
  intros Hreg Hloop Hcat. unfold chat_loop in Hloop.
  destruct (chat_entries self (entries self) (start_pass true)) as [es' out] eqn:Hes.
  simplify_eq.
  pose proof (pass_leaves_arrays self true _ st1 t Hes Hcat) as Hheld.
  destruct (second_entries ImageExtensions replace_text
              self (entries self) (start_pass true) _ st1 (start_pass true)
              Hreg Hes Hheld eq_refl eq_refl)
    as (st2 & Hpass2 & Hnum2 & Huse2 & Hembs2 & Hpos2).
  destruct (cached_entries_closed _ _ _ _ _ Hpass2 Huse2) as [_ Hopen2].
  specialize (Hopen2 eq_refl).
  assert (st2 = resumed (held_length (with_entries self es')) (num_user_prompts st1))
    as Hst2.
  { destruct st2. simpl in *. subst. reflexivity. }
  unfold embed_chat, chat_loop. simpl.
  rewrite !(chat_entries_with_entries ImageExtensions replace_text).
  rewrite chat_entries_app, Hpass2, Hst2.
  by destruct (chat_entries self new _) as [new' [stn|x]].
Qed.

(** X13.  [embed_chat()] on a history that has gained entries since a call
    that returned goes over the earlier entries without embedding or
    emitting anything, and leaves them as they are; the entries added are
    then processed as by a pass that starts at the position where the held
    embeddings end, with the count of user prompts where the earlier call
    left it, [use_cache] still true and no user prompt open. *)
Theorem next_pass_resumes self self1 st1 t new :
  cache_keys_unregistered self →
  chat_loop self true = (self1, Ok st1) →
  np_concatenate (embeddings st1) = Ok t →
  embed_chat (with_entries self1 (entries self1 ++ new)) true
  = let '(new', outcome) :=
      chat_entries self1 new (resumed (held_length self1) (num_user_prompts st1)) in
    (with_entries self1 (entries self1 ++ new'),
     st ← outcome;
     embedding ← np_concatenate (embeddings st);
     Ok (embedding, position st)).
Proof. apply resume_pass. Qed.

(** X14.  The next turn of a chat.  After an [embed_chat()] that returned,
    [add_entry(role, text=q)] for a role other than 'bot' followed by
    [embed_chat()] returns the embedding of [q] under the role's template
    and nothing else, at the position where the embeddings held by the
    earlier entries end; the new entry then holds that embedding and the
    earlier entries are as they were.  (Template set without 'first'.) *)
Theorem next_turn_returns_new_text self self1 st1 t (role q tpl : string) a :
  cache_keys_unregistered self →
  chat_loop self true = (self1, Ok st1) →
  np_concatenate (embeddings st1) = Ok t →
  role ≠ "bot" →
  template self !! "first" = None →
  template self !! role = Some tpl →
  embedding_functions self !! "role" = None →
  is_Some (embedding_functions self !! "text") →
  embed self (VStr q) (Some "text") (Some tpl) = Ok a →
  embed_chat (add_entry ImageExtensions self1 role VNone [("text", VStr q)]).1 true
  = (with_entries self1
       (entries self1
        ++ [[("role", VStr role); ("text", VStr q); ("text_embedding", VArray a)]]),
     Ok (a, held_length self1)).
Proof.
  intros Hreg Hloop Hcat Hbot Hfirst Htpl Hrole Htext Hemb.
  change (add_entry ImageExtensions self1 role VNone [("text", VStr q)]).1
    with (with_entries self1 (entries self1 ++ [[("role", VStr role); ("text", VStr q)]])).
  rewrite (resume_pass self self1 st1 t _ Hreg Hloop Hcat).
  assert (template self1 = template self
          ∧ embedding_functions self1 = embedding_functions self
          ∧ ∀ input type tp, embed self1 input type tp = embed self input type tp)
    as (Ht1 & Hef1 & Hemb1).
  { unfold chat_loop in Hloop.
    destruct (chat_entries self (entries self) (start_pass true)) as [es' out].
    simplify_eq. split; [done|split; [done|]]. apply embed_with_entries. }
  set (st := resumed (held_length self1) (num_user_prompts st1)).
  set (entry := [("role", VStr role); ("text", VStr q)] : dict row).
  assert (role_template_of self1 st entry = Ok (tpl, false)) as Hrt.
  { unfold role_template_of. rewrite Ht1, Hfirst. simpl. by rewrite Ht1, Htpl. }
  simpl. unfold chat_entry. simpl.
  rewrite (chat_segment_skip ImageExtensions replace_text) by (left; by rewrite Hef1).
  rewrite (chat_segment_processed ImageExtensions replace_text
             self1 "text" st entry (VStr q) tpl false (VStr role));
    [|by rewrite Hef1|done|done|done|done].
  unfold incremental_segment. rewrite Hemb1, Hemb. simpl.
  apply String.eqb_neq in Hbot. rewrite Hbot. simpl.
  destruct (count_user_prompt_fields (VStr role) "text"
              {| embeddings := [VArray a]; position := held_length self1;
                 num_user_prompts := num_user_prompts st1;
                 open_user_prompt := false; use_cache := false |})
    as (-> & -> & _).
  simpl. by rewrite app_nil_r.
Qed.

End Replay.

(** ** The theorems at work on concrete histories *)

(** The role key of a user entry is skipped, and the text after it is
    processed as if the role were not there. *)
Lemma skipped_key_is_ignored_witness :
  (embedding_functions Demo.vicuna1 !! "role" = None
   ∨ dict_get "role" Demo.hello_entry = Some VNone)
  ∧ demo_segment Demo.vicuna1 "role" (start_pass true) Demo.hello_entry
    = (Demo.hello_entry, Ok (start_pass true))
  ∧ demo_keys Demo.vicuna1 ("role" :: ["text"]) (start_pass true) Demo.hello_entry
    = demo_keys Demo.vicuna1 ["text"] (start_pass true) Demo.hello_entry.
Proof.
  assert (embedding_functions Demo.vicuna1 !! "role" = None
          ∨ dict_get "role" Demo.hello_entry = Some VNone) as H
    by (left; vm_compute; reflexivity).
  exact (conj H (skipped_key_is_ignored Demo.ImageExtensions Demo.replace_text
                   Demo.vicuna1 "role" ["text"] (start_pass true) Demo.hello_entry H)).
Defined.

(** Assembling the chat with the narrator turn fails, and the embeddings
    cached by the earlier assembly are still there. *)
Lemma failed_embed_chat_keeps_cache_witness :
  is_Raise (demo_embed_chat Demo.narrator true).2 = true
  ∧ Forall2
      (λ entry entry', ∀ key v,
         dict_get (key +:+ "_embedding") entry = Some v →
         dict_get (key +:+ "_embedding") entry' = Some v)
      (entries Demo.narrator) (entries (demo_embed_chat Demo.narrator true).1).
Proof.
  assert (is_Raise (demo_embed_chat Demo.narrator true).2 = true) as H
    by (vm_compute; reflexivity).
  exact (conj H (failed_embed_chat_keeps_cache Demo.ImageExtensions Demo.replace_text
                   Demo.narrator true H)).
Defined.

(** C7: the code on a list of strings and on an image.  Lines 324-329 mean
    to answer 'text' for the list and 'image' for the image, and to raise
    the ValueError that asks for an explicit type otherwise; none of this
    comes back, because evaluating [PIL.Image.Image] at line 324 raises
    NameError first: the module does not import PIL. *)
Lemma embedding_type_not_a_string :
  embedding_type Demo.ImageExtensions (VList [@VStr ascii "hello"; VStr "world"])
  = Raise (NameError "name 'PIL' is not defined")
  ∧ embedding_type Demo.ImageExtensions (@VImage ascii 0)
    = Raise (NameError "name 'PIL' is not defined").
Proof. split; vm_compute; reflexivity. Qed.

(** The image of a llava chat under the template of the user turn. *)
Lemma embed_image_parts_witness :
  "<s>[INST] ${MESSAGE} [/INST]" ≠ ""
  ∧ embed_image Demo.replace_text (Demo.new_chat Demo.llava) (VStr "photo.jpg")
      (Some "<s>[INST] ${MESSAGE} [/INST]")
    = Ok (list_ascii_of_string "<s>[INST] " ++ Demo.image_rows
          ++ list_ascii_of_string PyStr.nl).
Proof.
  assert ("<s>[INST] ${MESSAGE} [/INST]" ≠ "") as H by discriminate.
  exact (conj H (proj1 (embed_image_parts Demo.replace_text
                          (Demo.new_chat Demo.llava) (VStr "photo.jpg")
                          "<s>[INST] ${MESSAGE} [/INST]"
                          (list_ascii_of_string "<s>[INST] ") Demo.image_rows
                          (list_ascii_of_string PyStr.nl)
                          H eq_refl eq_refl eq_refl))).
Defined.

(** Setting the system prompt of an assembled chat. *)
Lemma set_system_prompt_resets_witness :
  (set_system_prompt Demo.ImageExtensions Demo.vicuna2 "Be brief.").2 = Ok tt
  ∧ entries (set_system_prompt Demo.ImageExtensions Demo.vicuna2 "Be brief.").1
    = [[("role", VStr "system"); ("text", VStr "Be brief.")]]
  ∧ (demo_embed_chat
       (set_system_prompt Demo.ImageExtensions Demo.vicuna2 "Be brief.").1 true).2
    = Ok (list_ascii_of_string ("Be brief." +:+ PyStr.nl +:+ PyStr.nl), 0).
Proof.
  pose proof (set_system_prompt_resets Demo.ImageExtensions Demo.replace_text
                Demo.vicuna2 "Be brief." ("${MESSAGE}" +:+ PyStr.nl +:+ PyStr.nl)
                (list_ascii_of_string ("Be brief." +:+ PyStr.nl +:+ PyStr.nl))
                ltac:(vm_compute; reflexivity) ltac:(vm_compute; reflexivity)
                ltac:(vm_compute; reflexivity) ltac:(vm_compute; reflexivity))
    as (H1 & _ & H3 & _ & H5 & _).
  exact (conj H1 (conj H3 H5)).
Defined.

(** The bot's answer, cached by the assembly before, is a cache hit. *)
Lemma cache_hit_advances_position_witness :
  getitem Demo.bot_entry "role" = Ok (VStr "bot")
  ∧ ∃ st', demo_segment Demo.vicuna3 "text" (start_pass true) Demo.bot_entry
           = (Demo.bot_entry, Ok st')
           ∧ embeddings st' = []
           ∧ position st'
             = 0 + length (list_ascii_of_string
                             ("ASSISTANT: hi there</s>" +:+ PyStr.nl))
           ∧ use_cache st' = true.
Proof.
  split; [vm_compute; reflexivity|].
  exact (cache_hit_advances_position Demo.ImageExtensions Demo.replace_text
           Demo.vicuna3 "text" (start_pass true) Demo.bot_entry
           (VStr "hi there") ("ASSISTANT: ${MESSAGE}</s>" +:+ PyStr.nl) false
           (list_ascii_of_string ("ASSISTANT: hi there</s>" +:+ PyStr.nl))
           eq_refl
           ltac:(vm_compute; eauto) ltac:(vm_compute; reflexivity)
           ltac:(discriminate) ltac:(vm_compute; reflexivity)
           ltac:(vm_compute; reflexivity)).
Defined.

(** C1: the claim at a cached bot segment.  The segment is a cache hit (the
    entry has role 'bot' and holds the embedding, [use_cache] is true), and
    the 24 positions of the held embedding are added to the position, which
    the claim says are not. *)
Lemma cached_bot_segment_is_counted :
  ∃ cached st',
    entries Demo.vicuna3 !! 2 = Some Demo.bot_entry
    ∧ getitem Demo.bot_entry "role" = Ok (VStr "bot")
    ∧ dict_get "text_embedding" Demo.bot_entry = Some (VArray cached)
    ∧ demo_segment Demo.vicuna3 "text" (start_pass true) Demo.bot_entry
      = (Demo.bot_entry, Ok st')
    ∧ length cached = 24
    ∧ position st' = position (start_pass (row := ascii) true) + 24
    ∧ position st' ≠ position (start_pass (row := ascii) true).
Proof.
  eexists (list_ascii_of_string ("ASSISTANT: hi there</s>" +:+ PyStr.nl)), _.
  repeat split; try (vm_compute; reflexivity). vm_compute. discriminate.
Qed.

(** The image of the first user turn is given the 'first' template. *)
Lemma first_template_rule_witness :
  getitem Demo.picture_entry "role" = Ok (VStr "user")
  ∧ dict_get "image" Demo.picture_entry = Some (VStr "photo.jpg")
  ∧ role_template_of Demo.llava1 (start_pass false) Demo.picture_entry
    = Ok ("${MESSAGE} [/INST]", false).
Proof.
  assert (getitem Demo.picture_entry "role" = Ok (VStr "user")) as Hrole
    by (vm_compute; reflexivity).
  assert (dict_get "image" Demo.picture_entry = Some (VStr "photo.jpg")) as Hraw
    by (vm_compute; reflexivity).
  refine (conj Hrole (conj Hraw _)).
  exact (proj1 (first_template_rule Demo.ImageExtensions Demo.replace_text
                  Demo.llava1 "image" (start_pass false) Demo.picture_entry
                  (VStr "photo.jpg") (VStr "user")
                  ltac:(vm_compute; eauto) Hraw ltac:(discriminate) Hrole)
          "${MESSAGE} [/INST]"
          ltac:(vm_compute; reflexivity) eq_refl eq_refl).
Defined.

(** C3: the claim at the image of a first user turn.  The segment is an
    image segment, yet the embedding the pass stores for it is the one made
    with the 'first' template (no text before the image), not the one made
    with the 'user' template. *)
Lemma image_segment_gets_first_template :
  ∃ entry,
    entries (demo_embed_chat Demo.llava1 true).1 !! 1 = Some entry
    ∧ getitem entry "role" = Ok (VStr "user")
    ∧ dict_get "image_embedding" entry
      = Some (VArray (list_ascii_of_string ("<img>" +:+ PyStr.nl)))
    ∧ demo_embed Demo.llava1 (VStr "photo.jpg") (Some "image")
        (template Demo.llava1 !! "first")
      = Ok (list_ascii_of_string ("<img>" +:+ PyStr.nl))
    ∧ demo_embed Demo.llava1 (VStr "photo.jpg") (Some "image")
        (template Demo.llava1 !! "user")
      = Ok (list_ascii_of_string ("<s>[INST] <img>" +:+ PyStr.nl)).
Proof.
  eexists. split; [vm_compute; reflexivity|].
  repeat split; vm_compute; reflexivity.
Qed.

(** C5: assembling a chat with a turn whose role has no template.  The
    RuntimeError that would name the role is never built: its message reads
    [self.template_name], which the history does not have. *)
Lemma missing_role_raises_attribute_error :
  init Demo.ImageExtensions Demo.vicuna TNone None = Ok (Demo.new_chat Demo.vicuna)
  ∧ (demo_embed_chat Demo.narrator true).2
    = Raise (AttributeError "'ChatHistory' object has no attribute 'template_name'").
Proof. split; vm_compute; reflexivity. Qed.

(** C2: the claim on the vicuna chat.  The first assembly returns position
    0; a second one with nothing added emits nothing and so fails at
    [np.concatenate], and the position its loop has reached is 170, the
    length of all the embeddings the entries hold. *)
Lemma second_assembly_raises :
  (∃ t, (demo_embed_chat Demo.vicuna1 true).2 = Ok (t, 0))
  ∧ Demo.vicuna2 = (demo_embed_chat Demo.vicuna1 true).1
  ∧ (demo_embed_chat Demo.vicuna2 true).2
    = Raise (ValueError "need at least one array to concatenate")
  ∧ position <$> (demo_loop Demo.vicuna2 true).2 = Ok 170.
Proof.
  split; [eexists; vm_compute; reflexivity|].
  repeat split; vm_compute; reflexivity.
Qed.

(** The whole chat is emitted again: the three turns held already and the
    new one. *)
Lemma full_pass_emits_everything_witness :
  (demo_embed_chat Demo.vicuna4 false).2 = Ok (Demo.full_embedding, 0)
  ∧ 0 = 0
  ∧ (∃ arrays,
       held Demo.vicuna4 (entries Demo.vicuna4)
         (entries (demo_embed_chat Demo.vicuna4 false).1)
       = Some <$> (VArray <$> arrays)
       ∧ Demo.full_embedding = concat arrays)
  ∧ Forall2 (λ e e', extends e e'
                     ∧ stores_fresh Demo.ImageExtensions Demo.replace_text
                         Demo.vicuna4 e e')
      (entries Demo.vicuna4) (entries (demo_embed_chat Demo.vicuna4 false).1).
Proof.
  assert ((demo_embed_chat Demo.vicuna4 false).2 = Ok (Demo.full_embedding, 0)) as H
    by (vm_compute; reflexivity).
  exact (conj H (full_pass_emits_everything Demo.ImageExtensions Demo.replace_text
                   Demo.vicuna4 Demo.full_embedding 0 H)).
Defined.

(** The vicuna chat assembled twice in a row. *)
Lemma second_pass_emits_nothing_witness :
  (demo_embed_chat Demo.vicuna1 true).2 = Ok (Demo.first_embedding, 0)
  ∧ ∃ st, demo_loop Demo.vicuna2 true = (Demo.vicuna2, Ok st)
          ∧ embeddings st = []
          ∧ use_cache st = true
          ∧ position st = held_length Demo.vicuna2.
Proof.
  assert ((demo_embed_chat Demo.vicuna1 true).2 = Ok (Demo.first_embedding, 0)) as H
    by (vm_compute; reflexivity).
  exact (conj H (second_pass_emits_nothing Demo.ImageExtensions Demo.replace_text
                   Demo.vicuna1 Demo.first_embedding 0
                   (builtin_cache_keys_unregistered Demo.vicuna1
                      ltac:(vm_compute; reflexivity))
                   H)).
Defined.

Example vicuna_full_embedding :
  string_of_list_ascii Demo.full_embedding
  = Templates.vicuna_prompt +:+ PyStr.nl +:+ PyStr.nl
    +:+ "USER: hello" +:+ PyStr.nl
    +:+ "ASSISTANT: hi there</s>" +:+ PyStr.nl
    +:+ "USER: bye" +:+ PyStr.nl
    +:+ "USER: thanks" +:+ PyStr.nl.
Proof. vm_compute. reflexivity. Qed.

Example vicuna_held_length : held_length Demo.vicuna2 = 170.
Proof. vm_compute. reflexivity. Qed.

Example vicuna_third_assembly :
  snd <$> (demo_embed_chat Demo.vicuna4 true).2 = Ok (170 + 24 + 10).
Proof. vm_compute. reflexivity. Qed.

(** ** Small checks of the string operations *)

Example find_placeholder :
  PyStr.find PyStr.MESSAGE "USER: ${MESSAGE}" = 6%Z.
Proof. reflexivity. Qed.

Example slice_suffix :
  PyStr.slice_from 6 "USER: ${MESSAGE}" = "${MESSAGE}".
Proof. reflexivity. Qed.

Example slice_not_found :
  PyStr.slice_from (PyStr.find PyStr.MESSAGE "abc") "abc" = "c".
Proof. reflexivity. Qed.

Example replace_user :
  PyStr.replace PyStr.MESSAGE "hello" "USER: ${MESSAGE}!" = "USER: hello!".
Proof. reflexivity. Qed.

(** ** The further theorems at work *)

(** A dict embedded by a llava chat: the image and the text, in that order. *)
Lemma embed_dict_concatenates_witness :
  Forall2 (λ kv emb, demo_embed (Demo.new_chat Demo.llava) kv.2 (Some kv.1) None = Ok emb)
    (filter (λ kv, item_embeddable (Demo.new_chat Demo.llava) kv = true)
       Demo.mixed_items)
    [list_ascii_of_string ("<img>" +:+ PyStr.nl); list_ascii_of_string "What is this?"]
  ∧ embed_dict Demo.ImageExtensions Demo.replace_text (Demo.new_chat Demo.llava)
      (VDict Demo.mixed_items) None
    = Ok (concat [list_ascii_of_string ("<img>" +:+ PyStr.nl);
                  list_ascii_of_string "What is this?"]).
Proof.
  assert (Forall2 (λ kv emb, demo_embed (Demo.new_chat Demo.llava) kv.2 (Some kv.1) None
                             = Ok emb)
            (filter (λ kv, item_embeddable (Demo.new_chat Demo.llava) kv = true)
               Demo.mixed_items)
            [list_ascii_of_string ("<img>" +:+ PyStr.nl);
             list_ascii_of_string "What is this?"]) as H.
  { change (filter _ Demo.mixed_items)
      with [("image", @VStr ascii "photo.jpg"); ("text", VStr "What is this?")].
    repeat constructor; vm_compute; reflexivity. }
  exact (conj H (embed_dict_concatenates Demo.ImageExtensions Demo.replace_text
                   (Demo.new_chat Demo.llava) Demo.mixed_items None _ H)).
Defined.

(** A one-parameter function of the caller registered for 'audio': it is
    called without the template. *)
Lemma register_then_embed_witness :
  "audio" ≠ ""
  ∧ demo_embed (register_embedding (Demo.new_chat Demo.vicuna) "audio"
                  (external 1 Demo.embed_audio))
      (VStr "beep.wav") (Some "audio") (Some "USER: ${MESSAGE}")
    = Demo.embed_audio (VStr "beep.wav") None.
Proof.
  assert ("audio" ≠ "") as H by done.
  exact (conj H (register_then_embed Demo.ImageExtensions Demo.replace_text
                   (Demo.new_chat Demo.vicuna) "audio" 1 Demo.embed_audio
                   (VStr "beep.wav") (Some "USER: ${MESSAGE}") H)).
Defined.

(** [add_entry('user', 'What is this?', image='photo.jpg')] on a new llava
    chat. *)
Lemma add_entry_appends_witness :
  ("role" ∉ [("image", @VStr ascii "photo.jpg")].*1)
  ∧ match add_entry Demo.ImageExtensions (Demo.new_chat Demo.llava) "user"
            (VStr "What is this?") [("image", VStr "photo.jpg")] with
    | (self', Ok entry) =>
        self' = with_entries (Demo.new_chat Demo.llava)
                  (entries (Demo.new_chat Demo.llava) ++ [entry])
        ∧ len self' = S (len (Demo.new_chat Demo.llava))
        ∧ dict_get "role" entry = Some (VStr "user")
        ∧ (@VStr ascii "What is this?" ≠ VNone →
           ∃ type, embedding_type Demo.ImageExtensions (@VStr ascii "What is this?")
                   = Ok type
                   ∧ dict_get type entry = Some (VStr "What is this?"))
    | (self', Raise _) => self' = Demo.new_chat Demo.llava
    end.
Proof.
  assert ("role" ∉ [("image", @VStr ascii "photo.jpg")].*1) as H
    by (intros [?|[]%elem_of_nil]%elem_of_cons; done).
  exact (conj H (add_entry_appends Demo.ImageExtensions (Demo.new_chat Demo.llava)
                   "user" (VStr "What is this?") [("image", VStr "photo.jpg")] H)).
Defined.

(** [ChatHistory(model, system_prompt='Be brief.')] for the vicuna model. *)
Lemma init_state_witness :
  ∃ self,
    init Demo.ImageExtensions Demo.vicuna TNone (Some "Be brief.") = Ok self
    ∧ model self = Demo.vicuna
    ∧ embedding_functions self = builtin_embeddings
    ∧ kv_cache self = None
    ∧ ∃ p, template self !! "system_prompt" = Some p
           ∧ entries self = [system_entry p]
           ∧ (∀ q, Some "Be brief." = Some q → q ≠ "" → p = q).
Proof.
  eexists.
  assert (init Demo.ImageExtensions Demo.vicuna TNone (Some "Be brief.") = Ok _) as H
    by (vm_compute; reflexivity).
  exact (conj H (init_state Demo.ImageExtensions Demo.vicuna TNone (Some "Be brief.")
                   _ H)).
Defined.

(** A history without entries has nothing to embed. *)
Lemma embed_chat_nothing_to_embed_witness :
  Forall (λ e, segments (Demo.blank Demo.vicuna) e = [])
    (entries (Demo.blank Demo.vicuna))
  ∧ demo_embed_chat (Demo.blank Demo.vicuna) false
    = (Demo.blank Demo.vicuna,
       Raise (ValueError "need at least one array to concatenate")).
Proof.
  assert (Forall (λ e, segments (Demo.blank Demo.vicuna) e = [])
            (entries (Demo.blank Demo.vicuna))) as H by constructor.
  exact (conj H (embed_chat_nothing_to_embed Demo.ImageExtensions Demo.replace_text
                   (Demo.blank Demo.vicuna) false H)).
Defined.

(** The vicuna chat assembled twice in a row: the second call raises. *)
Lemma second_embed_chat_raises_witness :
  cache_keys_unregistered Demo.vicuna1
  ∧ (demo_embed_chat Demo.vicuna1 true).2 = Ok (Demo.first_embedding, 0)
  ∧ demo_embed_chat (demo_embed_chat Demo.vicuna1 true).1 true
    = ((demo_embed_chat Demo.vicuna1 true).1,
       Raise (ValueError "need at least one array to concatenate")).
Proof.
  assert (cache_keys_unregistered Demo.vicuna1) as Hreg
    by (apply builtin_cache_keys_unregistered; vm_compute; reflexivity).
  assert ((demo_embed_chat Demo.vicuna1 true).2 = Ok (Demo.first_embedding, 0)) as H
    by (vm_compute; reflexivity).
  exact (conj Hreg (conj H (second_embed_chat_raises Demo.ImageExtensions
                              Demo.replace_text Demo.vicuna1 Demo.first_embedding 0
                              Hreg H))).
Defined.

(** The vicuna chat of three turns assembled, then read out in full. *)
Lemma full_pass_after_pass_witness :
  cache_keys_unregistered Demo.vicuna4
  ∧ (demo_embed_chat Demo.vicuna4 false).2 = Ok (Demo.full_embedding, 0)
  ∧ ∃ arrays,
      demo_embed_chat (demo_embed_chat Demo.vicuna4 false).1 false
      = ((demo_embed_chat Demo.vicuna4 false).1, Ok (concat arrays, 0))
      ∧ held Demo.vicuna4 (entries (demo_embed_chat Demo.vicuna4 false).1)
          (entries (demo_embed_chat Demo.vicuna4 false).1)
        = Some <$> (VArray <$> arrays)
      ∧ (false = false → concat arrays = Demo.full_embedding).
Proof.
  assert (cache_keys_unregistered Demo.vicuna4) as Hreg
    by (apply builtin_cache_keys_unregistered; vm_compute; reflexivity).
  assert ((demo_embed_chat Demo.vicuna4 false).2 = Ok (Demo.full_embedding, 0)) as H
    by (vm_compute; reflexivity).
  exact (conj Hreg (conj H (full_pass_after_pass Demo.ImageExtensions Demo.replace_text
                              Demo.vicuna4 false Demo.full_embedding 0 Hreg H))).
Defined.

(** The vicuna chat after its first assembly, with the bot's answer and the
    user's next turn added. *)
Lemma next_pass_resumes_witness :
  cache_keys_unregistered Demo.vicuna1
  ∧ demo_loop Demo.vicuna1 true = (Demo.vicuna2, Ok Demo.first_pass)
  ∧ np_concatenate (embeddings Demo.first_pass) = Ok Demo.first_embedding
  ∧ demo_embed_chat
      (with_entries Demo.vicuna2
         (entries Demo.vicuna2
          ++ [[("role", VStr "bot"); ("text", VStr "hi there")];
              [("role", VStr "user"); ("text", VStr "bye")]])) true
    = let '(new', outcome) :=
        chat_entries Demo.ImageExtensions Demo.replace_text Demo.vicuna2
          [[("role", VStr "bot"); ("text", VStr "hi there")];
           [("role", VStr "user"); ("text", VStr "bye")]]
          (resumed (held_length Demo.vicuna2) (num_user_prompts Demo.first_pass)) in
      (with_entries Demo.vicuna2 (entries Demo.vicuna2 ++ new'),
       st ← outcome;
       embedding ← np_concatenate (embeddings st);
       Ok (embedding, position st)).
Proof.
  assert (cache_keys_unregistered Demo.vicuna1) as Hreg
    by (apply builtin_cache_keys_unregistered; vm_compute; reflexivity).
  assert (demo_loop Demo.vicuna1 true = (Demo.vicuna2, Ok Demo.first_pass)) as Hloop
    by (vm_compute; reflexivity).
  assert (np_concatenate (embeddings Demo.first_pass) = Ok Demo.first_embedding) as Hcat
    by (vm_compute; reflexivity).
  exact (conj Hreg (conj Hloop (conj Hcat
           (next_pass_resumes Demo.ImageExtensions Demo.replace_text
              Demo.vicuna1 Demo.vicuna2 Demo.first_pass Demo.first_embedding
              [[("role", VStr "bot"); ("text", VStr "hi there")];
               [("role", VStr "user"); ("text", VStr "bye")]]
              Hreg Hloop Hcat)))).
Defined.

(** The vicuna chat after its first assembly: the user's next turn. *)
Lemma next_turn_returns_new_text_witness :
  cache_keys_unregistered Demo.vicuna1
  ∧ demo_loop Demo.vicuna1 true = (Demo.vicuna2, Ok Demo.first_pass)
  ∧ np_concatenate (embeddings Demo.first_pass) = Ok Demo.first_embedding
  ∧ "user" ≠ "bot"
  ∧ template Demo.vicuna1 !! "first" = None
  ∧ template Demo.vicuna1 !! "user" = Some ("USER: ${MESSAGE}" +:+ PyStr.nl)
  ∧ embedding_functions Demo.vicuna1 !! "role" = None
  ∧ is_Some (embedding_functions Demo.vicuna1 !! "text")
  ∧ demo_embed Demo.vicuna1 (VStr "bye") (Some "text")
      (Some ("USER: ${MESSAGE}" +:+ PyStr.nl))
    = Ok (list_ascii_of_string ("USER: bye" +:+ PyStr.nl))
  ∧ demo_embed_chat
      (add_entry Demo.ImageExtensions Demo.vicuna2 "user" VNone [("text", VStr "bye")]).1
      true
    = (with_entries Demo.vicuna2
         (entries Demo.vicuna2
          ++ [[("role", VStr "user"); ("text", VStr "bye");
               ("text_embedding",
                VArray (list_ascii_of_string ("USER: bye" +:+ PyStr.nl)))]]),
       Ok (list_ascii_of_string ("USER: bye" +:+ PyStr.nl), held_length Demo.vicuna2)).
Proof.
  assert (cache_keys_unregistered Demo.vicuna1) as Hreg
    by (apply builtin_cache_keys_unregistered; vm_compute; reflexivity).
  assert (demo_loop Demo.vicuna1 true = (Demo.vicuna2, Ok Demo.first_pass)) as Hloop
    by (vm_compute; reflexivity).
  assert (np_concatenate (embeddings Demo.first_pass) = Ok Demo.first_embedding) as Hcat
    by (vm_compute; reflexivity).
  assert ("user" ≠ "bot") as Hbot by done.
  assert (template Demo.vicuna1 !! "first" = None) as Hfirst
    by (vm_compute; reflexivity).
  assert (template Demo.vicuna1 !! "user" = Some ("USER: ${MESSAGE}" +:+ PyStr.nl))
    as Htpl by (vm_compute; reflexivity).
  assert (embedding_functions Demo.vicuna1 !! "role" = None) as Hrole
    by (vm_compute; reflexivity).
  assert (is_Some (embedding_functions Demo.vicuna1 !! "text")) as Htext
    by (vm_compute; eauto).
  assert (demo_embed Demo.vicuna1 (VStr "bye") (Some "text")
            (Some ("USER: ${MESSAGE}" +:+ PyStr.nl))
          = Ok (list_ascii_of_string ("USER: bye" +:+ PyStr.nl))) as Hemb
    by (vm_compute; reflexivity).
  exact (conj Hreg (conj Hloop (conj Hcat (conj Hbot (conj Hfirst (conj Htpl
           (conj Hrole (conj Htext (conj Hemb
              (next_turn_returns_new_text Demo.ImageExtensions Demo.replace_text
                 Demo.vicuna1 Demo.vicuna2 Demo.first_pass Demo.first_embedding
                 "user" "bye" ("USER: ${MESSAGE}" +:+ PyStr.nl)
                 (list_ascii_of_string ("USER: bye" +:+ PyStr.nl))
                 Hreg Hloop Hcat Hbot Hfirst Htpl Hrole Htext Hemb)))))))))).
Defined.
